(** * pyvesync: the [Timer] countdown of [pyvesync/devhelpers.py]

    A shallow embedding of the [Timer] class and the properties of its
    lazily recomputed state, followed by the table lookups and numeric
    helpers of the same file and the response processing of
    [pyvesync/vsconfig.py].

    Modelling conventions.
    - Python [int] is [Z]; [str] is [string]; [Optional[int]] is [option Z].
    - A method is a computation in the monad [M]: it reads the wall clock,
      mutates the instance and either returns a value or raises.  A raised
      exception keeps the mutations made before it, as in Python.
    - [int(time.time())] is the reader component [now] of [M].  One public
      call is run against one clock reading (a call is instantaneous); the
      clock moves between calls, which is how a test with a substituted
      clock drives the class. *)

From Stdlib Require Import ZArith String List Bool Lia.
Import ListNotations.

Local Open Scope Z_scope.
Local Open Scope string_scope.

Module Timer.

(** ** The instance *)

(** The attrs fields of [class Timer], in declaration order. *)
Record t : Type := mk {
  timer_duration : Z;
  action : string;
  id : Z;
  remaining : option Z;
  _status : string;
  _remain : Z;
  update_time : option Z
}.

(** ** Exceptions, outcomes and the method monad *)

Inductive exn : Type :=
| ValueError (msg : string).

Inductive outcome (A : Type) : Type :=
| Ok (a : A)
| Raise (e : exn).

Arguments Ok {A} a.
Arguments Raise {A} e.

(** clock reading -> instance before -> (outcome, instance after) *)
Definition M (A : Type) : Type := Z -> t -> outcome A * t.

Definition ret {A} (a : A) : M A := fun _ self => (Ok a, self).

Definition bind {A B} (m : M A) (k : A -> M B) : M B :=
  fun now self =>
    match m now self with
    | (Ok a, self') => k a now self'
    | (Raise e, self') => (Raise e, self')
    end.

Definition raise {A} (e : exn) : M A := fun _ self => (Raise e, self).

Declare Scope timer_scope.
Delimit Scope timer_scope with timer.

Notation "x <- c1 ;; c2" := (bind c1 (fun x => c2))
  (at level 61, c1 at next level, right associativity) : timer_scope.
Notation "c1 ;; c2" := (bind c1 (fun _ => c2))
  (at level 61, right associativity) : timer_scope.

Local Open Scope timer_scope.

(** [int(time.time())] *)
Definition time_time : M Z := fun now self => (Ok now, self).

(** [self.f] *)
Definition get {A} (f : t -> A) : M A := fun _ self => (Ok (f self), self).

(** [self._status = v] *)
Definition assign__status (v : string) : M unit :=
  fun _ self =>
    let 'mk d a i rm _ r ut := self in (Ok tt, mk d a i rm v r ut).

(** [self._remain = v] *)
Definition assign__remain (v : Z) : M unit :=
  fun _ self =>
    let 'mk d a i rm st _ ut := self in (Ok tt, mk d a i rm st v ut).

(** [self.update_time = v] *)
Definition assign_update_time (v : option Z) : M unit :=
  fun _ self =>
    let 'mk d a i rm st r _ := self in (Ok tt, mk d a i rm st r v).

(** [if b: body] *)
Definition when (b : bool) (body : M unit) : M unit :=
  if b then body else ret tt.

(** Python's short-circuit [a or b] and [a and b] on booleans. *)
Definition orM (a b : M bool) : M bool :=
  x <- a ;; if x then ret true else b.

Definition andM (a b : M bool) : M bool :=
  x <- a ;; if x then b else ret false.

(** ** Construction *)

(** The class body evaluates the default of [update_time],
    [int(time.time())], once, when the class statement runs; [class_time]
    is the clock reading at that moment.  Every instance built without an
    explicit [update_time] receives this same value. *)
Definition default_update_time (class_time : Z) : option Z := Some class_time.

Definition __attrs_post_init__ (self : t) : t :=
  let 'mk d a i rm st _ ut := self in
  match rm with
  | Some r => mk d a i rm st r ut
  | None => mk d a i rm st d ut
  end.

(** The attrs-generated [__init__] with every keyword supplied (the private
    fields [_status] and [_remain] are the keywords [status] and [remain]). *)
Definition __init__ (timer_duration : Z) (action : string) (id : Z)
    (remaining : option Z) (status : string) (remain : Z)
    (update_time : option Z) : t :=
  __attrs_post_init__
    (mk timer_duration action id remaining status remain update_time).

(** [Timer(timer_duration, action)]: every other field at its default. *)
Definition create (class_time : Z) (timer_duration : Z) (action : string) : t :=
  __init__ timer_duration action 1 None "active" 0
           (default_update_time class_time).

(** ** Methods and properties *)

(** [Timer.status] (getter) *)
Definition status : M string := get _status.

(** [Timer._seconds_since_check] *)
Definition _seconds_since_check : M Z :=
  u <- get update_time ;;
  match u with
  | None => ret 0
  | Some u => now <- time_time ;; ret (now - u)
  end.

(** [Timer.end] *)
Definition end_ : M unit :=
  assign__status "done" ;;
  assign__remain 0 ;;
  assign_update_time None.

(** [Timer._internal_update] *)
Definition _internal_update : M unit :=
  s <- get _status ;;
  if s =? "paused" then assign_update_time None
  else
    (expired <- orM (s <- get _status ;; ret (s =? "done"))
                    (andM (ssc <- _seconds_since_check ;;
                           r <- get _remain ;;
                           ret (r <? ssc)%Z)
                          (s <- get _status ;; ret (s =? "active"))) ;;
     when expired
       (assign__status "done" ;;
        assign_update_time None ;;
        assign__remain 0)) ;;
    s <- get _status ;;
    when (s =? "active")
      (r <- get _remain ;;
       ssc <- _seconds_since_check ;;
       assign__remain (r - ssc) ;;
       now <- time_time ;;
       assign_update_time (Some now)).

(** The values the status setter accepts. *)
Definition valid_status : list string := ["active"; "paused"; "done"].

(** [status in ['active', 'paused', 'done']] *)
Definition is_valid_status (s : string) : bool :=
  existsb (String.eqb s) valid_status.

(** [Timer.status] (setter) *)
Definition status_setter (new_status : string) : M unit :=
  if negb (is_valid_status new_status)
  then raise (ValueError ("Invalid status " ++ new_status))
  else
    _internal_update ;;
    finished <- orM (ret (new_status =? "done"))
                    (s <- get _status ;; ret (s =? "done")) ;;
    if finished then end_
    else
      (resume <- andM (s <- status ;; ret (s =? "paused"))
                      (ret (new_status =? "active")) ;;
       when resume (now <- time_time ;; assign_update_time (Some now))) ;;
      (suspend <- andM (s <- status ;; ret (s =? "active"))
                       (ret (new_status =? "paused")) ;;
       when suspend (assign_update_time None)) ;;
      assign__status new_status.

(** [Timer.time_remaining] (getter) *)
Definition time_remaining : M Z :=
  _internal_update ;;
  get _remain.

(** [Timer.time_remaining] (setter) *)
Definition time_remaining_setter (v : Z) : M unit :=
  if (v <=? 0)%Z then end_
  else
    assign__remain v ;;
    (s <- get _status ;; when (s =? "done") (status_setter "paused")) ;;
    assign_update_time None ;;
    _internal_update.

(** [Timer.running] *)
Definition running : M bool :=
  b <- andM (r <- time_remaining ;; ret (0 <? r)%Z)
            (s <- status ;; ret (s =? "active")) ;;
  if b then ret true else ret false.

(** [Timer.paused] *)
Definition paused : M bool :=
  s <- status ;; ret (s =? "paused").

(** [Timer.done] *)
Definition done : M bool :=
  orM (r <- time_remaining ;; ret (r <=? 0)%Z)
      (s <- get _status ;; ret (s =? "done")).

(** [Timer.start] *)
Definition start : M unit :=
  s <- get _status ;;
  if negb (s =? "paused") then ret tt
  else
    now <- time_time ;;
    assign_update_time (Some now) ;;
    status_setter "active".

(** [Timer.update] (keyword arguments; [None] means "not supplied") *)
Definition update (new_remaining : option Z) (new_status : option string)
  : M unit :=
  match new_remaining with
  | Some v => time_remaining_setter v
  | None => ret tt
  end ;;
  match new_status with
  | Some s => status_setter s
  | None => ret tt
  end.

(** [Timer.pause] *)
Definition pause : M unit :=
  _internal_update ;;
  s <- status ;;
  if s =? "done" then ret tt
  else
    status_setter "paused" ;;
    assign_update_time None.

(** ** The public interface as data *)

(** What a public call hands back to its caller. *)
Inductive value : Type :=
| VNone
| VInt (z : Z)
| VBool (b : bool)
| VStr (s : string).

(** The public operations of a [Timer]. *)
Inductive call : Type :=
| GetStatus
| SetStatus (s : string)
| GetTimeRemaining
| SetTimeRemaining (v : Z)
| GetRunning
| GetPaused
| GetDone
| CallStart
| CallEnd
| CallPause
| CallUpdate (new_remaining : option Z) (new_status : option string).

Definition invoke (c : call) : M value :=
  match c with
  | GetStatus => s <- status ;; ret (VStr s)
  | SetStatus s => status_setter s ;; ret VNone
  | GetTimeRemaining => r <- time_remaining ;; ret (VInt r)
  | SetTimeRemaining v => time_remaining_setter v ;; ret VNone
  | GetRunning => b <- running ;; ret (VBool b)
  | GetPaused => b <- paused ;; ret (VBool b)
  | GetDone => b <- done ;; ret (VBool b)
  | CallStart => start ;; ret VNone
  | CallEnd => end_ ;; ret VNone
  | CallPause => pause ;; ret VNone
  | CallUpdate r s => update r s ;; ret VNone
  end.

(** The instance after a computation, and what it produced. *)
Definition after {A} (m : M A) (now : Z) (self : t) : t := snd (m now self).
Definition result {A} (m : M A) (now : Z) (self : t) : outcome A :=
  fst (m now self).

End Timer.

Import Timer.
Local Open Scope timer_scope.

(** * Vocabulary of the properties *)

(** A timer whose countdown has run out as of clock reading [now]: it is
    already marked done, or it is active and the time since its checkpoint
    covers what remained. *)
Definition lapsed (now : Z) (self : Timer.t) : Prop :=
  _status self = "done" \/
  (_status self = "active" /\
   exists u, update_time self = Some u /\ _remain self <= now - u).

(** The three reads that recompute before answering. *)
Inductive expiry_read : Type :=
| ReadTimeRemaining
| ReadRunning
| ReadDone.

Definition perform (r : expiry_read) : M value :=
  match r with
  | ReadTimeRemaining => invoke GetTimeRemaining
  | ReadRunning => invoke GetRunning
  | ReadDone => invoke GetDone
  end.

(** What such a read answers on a timer that has run out. *)
Definition lapsed_answer (r : expiry_read) : value :=
  match r with
  | ReadTimeRemaining => VInt 0
  | ReadRunning => VBool false
  | ReadDone => VBool true
  end.

(** Reads at successive clock readings, threaded through the instance;
    the answers come back in call order. *)
Fixpoint perform_all (reads : list (Z * expiry_read)) (self : Timer.t)
  : list (outcome value) * Timer.t :=
  match reads with
  | [] => ([], self)
  | (now, r) :: rest =>
      let '(o, self') := perform r now self in
      let '(os, self'') := perform_all rest self' in
      (o :: os, self'')
  end.

(** The clock readings of a run of reads never go back and start at or
    after [from]. *)
Fixpoint clock_from (from : Z) (reads : list (Z * expiry_read)) : Prop :=
  match reads with
  | [] => True
  | (now, _) :: rest => from <= now /\ clock_from now rest
  end.

(** Strictly more time than remained has gone by since the checkpoint. *)
Definition overdue (now : Z) (self : Timer.t) : Prop :=
  _status self = "done" \/
  (_status self = "active" /\
   exists u, update_time self = Some u /\ _remain self < now - u).

(** The three-way equivalence of the specification. *)
Definition done_iff_zero_iff_unchecked (self : Timer.t) : Prop :=
  (_status self = "done" <-> _remain self = 0) /\
  (_remain self = 0 <-> update_time self = None).

(** What the code maintains: a done timer has nothing left and no
    checkpoint. *)
Definition done_inv (self : Timer.t) : Prop :=
  _status self = "done" -> _remain self = 0 /\ update_time self = None.

(** The calls that ask for a positive remaining time. *)
Definition rearms (c : call) : bool :=
  match c with
  | SetTimeRemaining v => (0 <? v)%Z
  | CallUpdate (Some v) _ => (0 <? v)%Z
  | _ => false
  end.

(** [end()] repeated at the given clock readings. *)
Definition end_repeatedly (nows : list Z) (self : Timer.t) : Timer.t :=
  fold_left (fun s now => after end_ now s) nows self.

(** The instance with another nominal duration. *)
Definition with_timer_duration (d' : Z) (self : Timer.t) : Timer.t :=
  let 'mk _ a i rm st r ut := self in mk d' a i rm st r ut.

(** ** The scenario of the specification *)

(** [Timer(duration=100, action="beep")], built at the very instant the
    class was defined (clock 0); read 40 seconds in; paused; resumed 1000
    seconds later. *)
Definition scenario_t0 : Timer.t := create 0 100 "beep".

Definition scenario_t40 : Timer.t := after time_remaining 40 scenario_t0.

Definition scenario_paused_t : Timer.t := after pause 40 scenario_t40.

Definition scenario_resumed_t : Timer.t :=
  after start 1040 (after time_remaining 1040 scenario_paused_t).

(** ** Vocabulary for runs of calls *)

(** What a recomputing read answers on a paused timer with [m] left. *)
Definition paused_answer (m : Z) (r : expiry_read) : value :=
  match r with
  | ReadTimeRemaining => VInt m
  | ReadRunning => VBool false
  | ReadDone => VBool (m <=? 0)%Z
  end.

(** Public calls at the given clock readings, one after the other; an
    exception ends the call that raised it, not the run. *)
Definition invoke_all (calls : list (Z * call)) (self : Timer.t) : Timer.t :=
  fold_left (fun s (c : Z * call) => after (invoke (snd c)) (fst c) s)
            calls self.

(** * Python strings *)

Module Python.

(** [needle in hay] on strings: [needle] occurs as a substring. *)
Fixpoint contains (needle hay : string) : bool :=
  match hay with
  | EmptyString => String.prefix needle hay
  | String _ rest => String.prefix needle hay || contains needle rest
  end.

End Python.

(** * Device tables: [DeviceConfig] of [pyvesync/devhelpers.py] *)

Module DeviceConfig.

(** ** Python values of the feature tables *)

(** What the feature dictionaries of [vsfanspecs.py] hold: strings,
    integers, members of the [FANFEATURES] / [FANMODES] enumerations and
    lists of these. *)
#[warnings="-register-all"]
Inductive pyval : Type :=
| PStr (s : string)
| PInt (z : Z)
| PEnum (member : string)
| PList (items : list pyval).

(** A [dict] with string keys, in insertion order. *)
Definition pydict : Type := list (string * pyval).

Inductive exn : Type :=
| KeyError (key : string)
| TypeError.

Inductive res (A : Type) : Type :=
| Ok (a : A)
| Raise (e : exn).

Arguments Ok {A} a.
Arguments Raise {A} e.

Definition bind {A B} (m : res A) (k : A -> res B) : res B :=
  match m with
  | Ok a => k a
  | Raise e => Raise e
  end.

Declare Scope pyres_scope.
Delimit Scope pyres_scope with pyres.

Notation "x <- c1 ;; c2" := (bind c1 (fun x => c2))
  (at level 61, c1 at next level, right associativity) : pyres_scope.

Local Open Scope pyres_scope.

(** Python's [==] on these values. *)
Fixpoint pyval_eqb (a b : pyval) : bool :=
  match a, b with
  | PStr x, PStr y => String.eqb x y
  | PInt x, PInt y => Z.eqb x y
  | PEnum x, PEnum y => String.eqb x y
  | PList xs, PList ys =>
      (fix items_eqb (xs ys : list pyval) {struct xs} : bool :=
         match xs, ys with
         | [], [] => true
         | x :: xs', y :: ys' => pyval_eqb x y && items_eqb xs' ys'
         | _, _ => false
         end) xs ys
  | _, _ => false
  end.

Fixpoint lookup (key : string) (d : pydict) : option pyval :=
  match d with
  | [] => None
  | (k, v) :: rest => if String.eqb key k then Some v else lookup key rest
  end.

(** [d[key]] *)
Definition getitem (key : string) (d : pydict) : res pyval :=
  match lookup key d with
  | Some v => Ok v
  | None => Raise (KeyError key)
  end.

(** [d.get(key, default)] *)
Definition get (key : string) (default : pyval) (d : pydict) : pyval :=
  match lookup key d with
  | Some v => v
  | None => default
  end.

(** [x in container] for a string [x]. *)
Definition py_in (x : string) (container : pyval) : res bool :=
  match container with
  | PList items => Ok (existsb (pyval_eqb (PStr x)) items)
  | PStr s => Ok (Python.contains x s)
  | PInt _ | PEnum _ => Raise TypeError
  end.

(** The items [for x in container] visits. *)
Definition py_iter (container : pyval) : res (list pyval) :=
  match container with
  | PList items => Ok items
  | PStr s => Ok (map (fun c => PStr (String c EmptyString)) (list_ascii_of_string s))
  | PInt _ | PEnum _ => Raise TypeError
  end.

(** Lists cannot be dictionary keys. *)
Definition hashable (v : pyval) : bool :=
  match v with
  | PList _ => false
  | _ => true
  end.

(** A [dict] keyed by values, as [model_dict] builds. *)
Definition valdict : Type := list (pyval * pyval).

Fixpoint val_lookup (key : pyval) (d : valdict) : option pyval :=
  match d with
  | [] => None
  | (k, v) :: rest => if pyval_eqb key k then Some v else val_lookup key rest
  end.

(** [d[key] = v]: replace in place, or append. *)
Fixpoint val_setitem (key v : pyval) (d : valdict) : valdict :=
  match d with
  | [] => [(key, v)]
  | (k, w) :: rest =>
      if pyval_eqb key k then (k, v) :: rest
      else (k, w) :: val_setitem key v rest
  end.

(** [for x in xs: body], threading the loop's variables and stopping at
    the first exception. *)
Fixpoint for_each {A S} (body : A -> S -> res S) (xs : list A) (s : S)
  : res S :=
  match xs with
  | [] => Ok s
  | x :: rest => s' <- body x s ;; for_each body rest s'
  end.

(** ** The static methods *)

(** [DeviceConfig.model_dict] *)
Definition model_dict (feature_dict : list (string * pydict)) : res valdict :=
  for_each
    (fun (entry : string * pydict) (model_modules : valdict) =>
       let dev_dict := snd entry in
       config_modules <- getitem "config_modules" dev_dict ;;
       models <- py_iter config_modules ;;
       for_each
         (fun (model : pyval) (model_modules : valdict) =>
            module <- getitem "module" dev_dict ;;
            if hashable model
            then Ok (val_setitem model module model_modules)
            else Raise TypeError)
         models model_modules)
    feature_dict [].

(** [DeviceConfig.device_config_by_key] *)
Fixpoint device_config_by_key (key config_module : string)
    (feature_dict : list (string * pydict)) : res pyval :=
  match feature_dict with
  | [] => Ok (PList [])
  | (_, dev_dict) :: rest =>
      config_modules <- getitem "config_modules" dev_dict ;;
      found <- py_in config_module config_modules ;;
      if found then Ok (get key (PList []) dev_dict)
      else device_config_by_key key config_module rest
  end.

(** [DeviceConfig.get_features] *)
Definition get_features (config_module : string)
    (feature_dict : list (string * pydict)) : res pyval :=
  device_config_by_key "features" config_module feature_dict.

(** [DeviceConfig.get_modes] *)
Definition get_modes (config_module : string)
    (feature_dict : list (string * pydict)) : res pyval :=
  device_config_by_key "modes" config_module feature_dict.

(** [DeviceConfig.get_config_dict] *)
Fixpoint get_config_dict (config_module : string)
    (feature_dict : list (string * pydict)) : res pydict :=
  match feature_dict with
  | [] => Ok []
  | (_, dev_dict) :: rest =>
      config_modules <- getitem "config_modules" dev_dict ;;
      found <- py_in config_module config_modules ;;
      if found then Ok dev_dict
      else get_config_dict config_module rest
  end.

End DeviceConfig.

(** ** Vocabulary for the device tables *)

(** The device lists [config_module] among its configuration modules. *)
Definition lists_module (config_module : string) (dev_dict : DeviceConfig.pydict)
  : bool :=
  match DeviceConfig.lookup "config_modules" dev_dict with
  | Some (DeviceConfig.PList items) =>
      existsb (DeviceConfig.pyval_eqb (DeviceConfig.PStr config_module)) items
  | _ => false
  end.

(** The device has a list under ["config_modules"] and [config_module] is
    not in it: the lookups pass over it. *)
Definition passes_over (config_module : string)
    (dev_dict : DeviceConfig.pydict) : Prop :=
  exists items,
    DeviceConfig.lookup "config_modules" dev_dict =
      Some (DeviceConfig.PList items) /\
    existsb (DeviceConfig.pyval_eqb (DeviceConfig.PStr config_module)) items =
      false.

(** The last device of the table that lists [config_module]. *)
Fixpoint last_listing (config_module : string)
    (devs : list DeviceConfig.pydict) : option DeviceConfig.pydict :=
  match devs with
  | [] => None
  | d :: rest =>
      match last_listing config_module rest with
      | Some d' => Some d'
      | None => if lists_module config_module d then Some d else None
      end
  end.

(** A table entry as [vsfanspecs.py] writes them: a ["module"] and a list
    of strings under ["config_modules"]. *)
Definition table_entry (dev_dict : DeviceConfig.pydict) : Prop :=
  (exists m, DeviceConfig.lookup "module" dev_dict = Some m) /\
  (exists names : list string,
     DeviceConfig.lookup "config_modules" dev_dict =
       Some (DeviceConfig.PList (map DeviceConfig.PStr names))).

(** Two rows shaped like the humidifier table; the second also lists a
    configuration module of the first. *)
Definition sample_table : list (string * DeviceConfig.pydict) :=
  [ ("Classic200S",
     [ ("module", DeviceConfig.PStr "VeSyncHumid200S");
       ("config_modules",
        DeviceConfig.PList
          [ DeviceConfig.PStr "WiFiBTOnboardingNotify_AirHumidifier_Classic200S_JP";
            DeviceConfig.PStr "WiFiBTOnboardingNotify_AirHumidifier_Classic200S_US" ]);
       ("features", DeviceConfig.PList []) ]);
    ("Dual200S",
     [ ("module", DeviceConfig.PStr "VeSyncHumid200300S");
       ("config_modules",
        DeviceConfig.PList
          [ DeviceConfig.PStr "WFON_AHM_LUH-D301S-WUSR_US";
            DeviceConfig.PStr "WiFiBTOnboardingNotify_AirHumidifier_Classic200S_US" ]);
       ("mist_levels", DeviceConfig.PList [DeviceConfig.PInt 1; DeviceConfig.PInt 2]) ]) ].

(** * Numeric helpers of [pyvesync/devhelpers.py] *)

Module Numeric.

Section Numberfy.

(** Python's [float] and the two string conversions, [None] standing for
    the [ValueError] they raise on a string that does not parse. *)
Variable float : Type.
Variable float_of_str : string -> option float.
Variable int_of_str : string -> option Z.

(** [a < b] when at least one side is a float. *)
Variable float_lt : Z + float -> Z + float -> bool.

(** [NUMERIC_T = Optional[Union[int, float, str]]] *)
Inductive numeric_t : Type :=
| NNone
| NInt (z : Z)
| NFloat (f : float)
| NStr (s : string).

(** [Union[int, float]] *)
Inductive number : Type :=
| Int (z : Z)
| Float (f : float).

(** [numberfy] *)
Definition numberfy (val : numeric_t) : number :=
  match val with
  | NNone => Int 0
  | NStr s =>
      if Python.contains "." s
      then match float_of_str s with
           | Some f => Float f
           | None => Int 0
           end
      else match int_of_str s with
           | Some z => Int z
           | None => Int 0
           end
  | NInt z => Int z
  | NFloat f => Float f
  end.

Definition as_sum (n : number) : Z + float :=
  match n with
  | Int z => inl z
  | Float f => inr f
  end.

(** [a < b] on numbers. *)
Definition lt (a b : number) : bool :=
  match a, b with
  | Int x, Int y => (x <? y)%Z
  | _, _ => float_lt (as_sum a) (as_sum b)
  end.

(** [min(a, b)]: the first argument unless the second is smaller. *)
Definition py_min (a b : number) : number := if lt b a then b else a.

(** [max(a, b)]: the first argument unless the second is greater. *)
Definition py_max (a b : number) : number := if lt a b then b else a.

(** [between_values] *)
Definition between_values (value min_val max_val : numeric_t) : number :=
  let value_num := numberfy value in
  let min_num := numberfy min_val in
  let max_num := numberfy max_val in
  py_max (py_min max_num value_num) min_num.

End Numberfy.

Arguments NNone {float}.
Arguments NInt {float} z.
Arguments NStr {float} s.
Arguments Int {float} z.

End Numeric.

(** * Device specifications: [VeSyncConfig.process_specs] of
      [pyvesync/vsconfig.py] *)

Module VeSyncConfig.

(** The product-line payload as [process_specs] reads it.  A field the code
    indexes is a field of the record; a field it tests with
    [isinstance(_, list)] is [None] when the test fails. *)
Record config_mod : Type := {
  configModule : string
}.

Record model_info : Type := {
  model : string;
  deviceType : string;
  connectionType : string;
  modelName : string;
  modelDisplay : string;
  setupEntry : string;
  configModuleInfoList : option (list config_mod)
}.

Record prod_type : Type := {
  typeName : string;
  modelInfoList : list model_info
}.

Record prod_line : Type := {
  typeInfoList : option (list prod_type)
}.

(** One value of the [specs] dictionary. *)
Record spec : Type := {
  spec_devicetype : string;
  spec_modeltype : string;
  spec_model : string;
  spec_model_name : string;
  spec_model_display : string;
  spec_setup_entry : string
}.

(** [specs]: a [dict] from configuration module to [spec], in insertion
    order. *)
Definition specs_t : Type := list (string * spec).

Fixpoint setitem (key : string) (v : spec) (d : specs_t) : specs_t :=
  match d with
  | [] => [(key, v)]
  | (k, w) :: rest =>
      if String.eqb key k then (k, v) :: rest
      else (k, w) :: setitem key v rest
  end.

Inductive exn : Type :=
| UnboundLocalError (name : string).

Inductive res (A : Type) : Type :=
| Ok (a : A)
| Raise (e : exn).

Arguments Ok {A} a.
Arguments Raise {A} e.

Section ProcessSpecs.

(** [str.lower] *)
Variable lower : string -> string.

(** The body of [for model in prod_type['modelInfoList']]. *)
Definition model_body (current_type : string) (specs : specs_t)
    (m : model_info) : specs_t :=
  let current_model := lower (model m) in
  let current_devtype := lower (deviceType m) in
  match configModuleInfoList m with
  | None => specs
  | Some config_mod_list =>
      if negb (Python.contains "wifi" (lower (connectionType m)))
      then specs
      else
        fold_left
          (fun specs cm =>
             setitem (configModule cm)
               {| spec_devicetype := current_devtype;
                  spec_modeltype := current_type;
                  spec_model := current_model;
                  spec_model_name := lower (modelName m);
                  spec_model_display := lower (modelDisplay m);
                  spec_setup_entry := lower (setupEntry m) |}
               specs)
          config_mod_list specs
  end.

(** The body of [for prod_type in type_list]. *)
Definition type_body (specs : specs_t) (t : prod_type) : specs_t :=
  let current_type := lower (typeName t) in
  fold_left (model_body current_type) (modelInfoList t) specs.

(** The body of [for prod_line in prod_line_list]; the local [specs] is
    [None] until its first assignment. *)
Definition line_body (specs : option specs_t) (line : prod_line)
  : option specs_t :=
  match typeInfoList line with
  | None => specs
  | Some type_list => Some (fold_left type_body type_list [])
  end.

(** [VeSyncConfig.process_specs] *)
Definition process_specs (prod_line_list : list prod_line) : res specs_t :=
  match fold_left line_body prod_line_list None with
  | Some specs => Ok specs
  | None => Raise (UnboundLocalError "specs")
  end.

End ProcessSpecs.

End VeSyncConfig.

(** * Linkage properties: [VeSyncConfig._process_linkage] of
      [pyvesync/vsconfig.py] *)

Module Linkage.

(** [actions]: the action types the module names. *)
Definition actions : list (Z * string) :=
  [ (60000, "toggle_power");
    (70001, "modes");
    (70002, "primary_level_text");
    (70003, "secondary_toggle");
    (70004, "primary_level_numeric");
    (70005, "secondary_levels");
    (70008, "levels_text") ].

(** The key a property is stored under: its name when the type is in
    [actions], else the raw type, [None] when the property has none. *)
Inductive action_key : Type :=
| ActionName (name : string)
| ActionType (code : Z)
| ActionNone.

Definition action_key_eqb (a b : action_key) : bool :=
  match a, b with
  | ActionName x, ActionName y => String.eqb x y
  | ActionType x, ActionType y => Z.eqb x y
  | ActionNone, ActionNone => true
  | _, _ => false
  end.

Fixpoint actions_get (code : Z) (table : list (Z * string)) : option string :=
  match table with
  | [] => None
  | (k, v) :: rest => if Z.eqb code k then Some v else actions_get code rest
  end.

Inductive exn : Type :=
| KeyError (key : string).

Inductive res (A : Type) : Type :=
| Ok (a : A)
| Raise (e : exn).

Arguments Ok {A} a.
Arguments Raise {A} e.

(** [for x in xs: body], stopping at the first exception. *)
Fixpoint for_each {A S} (body : S -> A -> res S) (xs : list A) (s : S)
  : res S :=
  match xs with
  | [] => Ok s
  | x :: rest =>
      match body s x with
      | Ok s' => for_each body rest s'
      | Raise e => Raise e
      end
  end.

Section ProcessLinkage.

(** The JSON under ['actionProps'], which the code only copies. *)
Variable json : Type.

(** One entry of ['actionPropertyList'], read with [get]. *)
Record prop : Type := {
  actionType : option Z;
  actionProps : option json
}.

(** One entry of ['devicePropertiesList']: ['configModule'] may be missing;
    ['actionPropertyList'] defaults to [[]]. *)
Record dev : Type := {
  configModule : option string;
  actionPropertyList : list prop
}.

(** The properties of one device, by action. *)
Definition props_t : Type := list (action_key * option json).

(** [dev_dict]: from configuration module to its properties. *)
Definition dev_dict_t : Type := list (string * props_t).

Fixpoint props_setitem (key : action_key) (v : option json) (d : props_t)
  : props_t :=
  match d with
  | [] => [(key, v)]
  | (k, w) :: rest =>
      if action_key_eqb key k then (k, v) :: rest
      else (k, w) :: props_setitem key v rest
  end.

Fixpoint dev_dict_get (key : string) (d : dev_dict_t) : option props_t :=
  match d with
  | [] => None
  | (k, v) :: rest => if String.eqb key k then Some v else dev_dict_get key rest
  end.

Fixpoint dev_dict_setitem (key : string) (v : props_t) (d : dev_dict_t)
  : dev_dict_t :=
  match d with
  | [] => [(key, v)]
  | (k, w) :: rest =>
      if String.eqb key k then (k, v) :: rest
      else (k, w) :: dev_dict_setitem key v rest
  end.

(** The body of [for prop in dev.get('actionPropertyList', [])]. *)
Definition prop_body (d : dev) (dev_dict : dev_dict_t) (p : prop)
  : res dev_dict_t :=
  let action :=
    match actionType p with
    | Some code =>
        match actions_get code actions with
        | Some name => ActionName name
        | None => ActionType code
        end
    | None => ActionNone
    end in
  match configModule d with
  | None => Raise (KeyError "configModule")
  | Some cm =>
      let dev_dict :=
        match dev_dict_get cm dev_dict with
        | None => dev_dict_setitem cm [] dev_dict
        | Some _ => dev_dict
        end in
      let props :=
        match dev_dict_get cm dev_dict with
        | Some props => props
        | None => []
        end in
      Ok (dev_dict_setitem cm (props_setitem action (actionProps p) props)
            dev_dict)
  end.

(** [dev.get('configModule') != config_module] *)
Definition other_module (d : dev) (config_module : string) : bool :=
  match configModule d with
  | Some cm => negb (String.eqb cm config_module)
  | None => true
  end.

(** The body of [for dev in dev_list]. *)
Definition dev_body (config_module : option string) (dev_dict : dev_dict_t)
    (d : dev) : res dev_dict_t :=
  match config_module with
  | Some cm =>
      if other_module d cm then Ok dev_dict
      else for_each (prop_body d) (actionPropertyList d) dev_dict
  | None => for_each (prop_body d) (actionPropertyList d) dev_dict
  end.

(** [VeSyncConfig._process_linkage]; [dev_list] is [None] when the response
    has no list under ['result']['devicePropertiesList']. *)
Definition _process_linkage (dev_list : option (list dev))
    (config_module : option string) : res (option dev_dict_t) :=
  match dev_list with
  | None => Ok None
  | Some [] => Ok None
  | Some devs =>
      match for_each (dev_body config_module) devs [] with
      | Ok dev_dict => Ok (Some dev_dict)
      | Raise e => Raise e
      end
  end.

End ProcessLinkage.

Arguments actionType {json} p.
Arguments actionProps {json} p.
Arguments configModule {json} d.
Arguments actionPropertyList {json} d.

End Linkage.

(** ** Vocabulary for the linkage properties *)

(** Every key of the dictionary is [cm]. *)
Definition only_module (json : Type) (cm : string)
    (d : Linkage.dev_dict_t json) : Prop :=
  forall q, q <> cm -> Linkage.dev_dict_get json q d = None.

(** A device the unfiltered loop cannot file: it has properties but no
    ['configModule']. *)
Definition unfiled (json : Type) (d : Linkage.dev json) : Prop :=
  Linkage.configModule d = None /\ Linkage.actionPropertyList d <> [].

(** ** Proof automation *)

(** Symbolic execution of a method on an instance whose fields are known.
    A run is reduced to weak head normal form only, so that it stops at the
    first test it cannot decide; the test is then decided by cases and the
    run resumes.  [after] and [result] mark the runs still to start, and a
    run starts only once the instance it is applied to is a [mk]: nested
    runs are executed innermost first. *)

Ltac timer_norm :=
  cbn [fst snd timer_duration action id remaining _status _remain
       update_time].

Ltac timer_whnf t :=
  eval lazy head beta iota zeta
       delta [invoke update pause start done paused running
              time_remaining_setter time_remaining status_setter
              is_valid_status valid_status existsb _internal_update end_
              _seconds_since_check status andM orM when assign_update_time
              assign__remain assign__status get time_time raise bind ret
              negb orb andb] in t.

Ltac timer_start :=
  match goal with
  | |- context [@after ?A ?m ?now (mk ?d ?a ?i ?rm ?st ?r ?ut)] =>
      let t := timer_whnf (m now (mk d a i rm st r ut)) in
      change (@after A m now (mk d a i rm st r ut)) with (snd t)
  | |- context [@result ?A ?m ?now (mk ?d ?a ?i ?rm ?st ?r ?ut)] =>
      let t := timer_whnf (m now (mk d a i rm st r ut)) in
      change (@result A m now (mk d a i rm st r ut)) with (fst t)
  end.

Ltac timer_resume :=
  match goal with
  | |- context [snd ?x] =>
      let t := timer_whnf x in progress change x with t
  | |- context [fst ?x] =>
      let t := timer_whnf x in progress change x with t
  end.

(** Decide one test: a string comparison, an optional checkpoint or an
    integer comparison. *)
Ltac timer_case :=
  match goal with
  | H : ?a <> ?b |- context [String.eqb ?a ?b] =>
      rewrite (proj2 (String.eqb_neq a b) H)
  | H : (?a < ?b)%Z |- context [Z.ltb ?a ?b] =>
      rewrite (proj2 (Z.ltb_lt a b) H)
  | H : (?b <= ?a)%Z |- context [Z.ltb ?a ?b] =>
      rewrite (proj2 (Z.ltb_ge a b) H)
  | H : (?a <= ?b)%Z |- context [Z.leb ?a ?b] =>
      rewrite (proj2 (Z.leb_le a b) H)
  | H : (?b < ?a)%Z |- context [Z.leb ?a ?b] =>
      rewrite (proj2 (Z.leb_gt a b) H)
  | |- context [String.eqb ?a ?b] =>
      first
        [ is_var a; destruct (String.eqb_spec a b); [subst a |]
        | let v := eval vm_compute in (String.eqb a b) in
          match v with
          | true => change (String.eqb a b) with true
          | false => change (String.eqb a b) with false
          end ]
  | |- context [match ?x with Some _ => _ | None => _ end] =>
      is_var x; destruct x
  | |- context [Z.ltb ?a ?b] => destruct (Z.ltb_spec a b)
  | |- context [Z.leb ?a ?b] => destruct (Z.leb_spec a b)
  end.

Ltac timer_exec :=
  cbv [create __init__ __attrs_post_init__ default_update_time];
  timer_norm;
  repeat (first [timer_resume | timer_start | timer_case]; timer_norm).

Ltac timer_crush :=
  timer_exec;
  repeat split; try reflexivity; try congruence; try lia;
  try (f_equal; lia); try (repeat f_equal; lia).

(** ** The scenario of the specification, run on the model *)

Example scenario_fresh : result time_remaining 0 scenario_t0 = Ok 100.
Proof. reflexivity. Qed.

Example scenario_40 :
  result time_remaining 40 scenario_t0 = Ok 60 /\
  result running 40 scenario_t40 = Ok true.
Proof. split; reflexivity. Qed.

Example scenario_paused :
  result paused 40 scenario_paused_t = Ok true /\
  result time_remaining 1040 scenario_paused_t = Ok 60.
Proof. split; reflexivity. Qed.

Example scenario_resumed :
  result running 1040 scenario_resumed_t = Ok true /\
  result done 1100 scenario_resumed_t = Ok true /\
  result time_remaining 1100 scenario_resumed_t = Ok 0.
Proof. repeat split; reflexivity. Qed.

(** ** Countdown of an active timer *)

(** C8.  An active timer with checkpoint [u] and [r] seconds left, read
    after a gap [delta < r]: [time_remaining] answers [r - delta] and the
    status is still ["active"]. *)
Theorem countdown_before_expiry (self : Timer.t) (u delta : Z) :
  _status self = "active" ->
  update_time self = Some u ->
  delta < _remain self ->
  result time_remaining (u + delta) self = Ok (_remain self - delta) /\
  _status (after time_remaining (u + delta) self) = "active" /\
  result status (u + delta) (after time_remaining (u + delta) self) =
    Ok "active".
Proof.
  destruct self as [d a i rm st r ut]; simpl; intros -> -> Hlt.
  timer_crush.
Qed.

(** A 100 second timer read 40 seconds in. *)
Lemma countdown_before_expiry_witness :
  result time_remaining 40 (create 0 100 "beep") = Ok 60 /\
  _status (after time_remaining 40 (create 0 100 "beep")) = "active".
Proof.
  destruct (countdown_before_expiry (create 0 100 "beep") 0 40)
    as (Hr & Hs & _).
  - reflexivity.
  - reflexivity.
  - simpl; lia.
  - split; [exact Hr | exact Hs].
Defined.

(** ** Expiry of an active timer *)

Lemma lapsed_mono (now now' : Z) (self : Timer.t) :
  lapsed now self -> now <= now' -> lapsed now' self.
Proof.
  intros [Hd | (Ha & u & Hu & Hle)] Hnow; [now left | right].
  split; [exact Ha | exists u; split; [exact Hu | lia]].
Qed.

Lemma lapsed_read (r : expiry_read) (now : Z) (self : Timer.t) :
  lapsed now self ->
  result (perform r) now self = Ok (lapsed_answer r) /\
  lapsed now (after (perform r) now self) /\
  _remain (after (perform r) now self) = 0.
Proof.
  destruct self as [d a i rm st m ut]; unfold lapsed; simpl.
  intros [-> | (-> & u & -> & Hle)]; destruct r; unfold perform, lapsed_answer.
  all: timer_crush.
  all: try (now left).
  all: right; split; [reflexivity | eexists; split; [reflexivity | lia]].
Qed.

Lemma lapsed_reads (reads : list (Z * expiry_read)) :
  forall (from : Z) (self : Timer.t),
    lapsed from self ->
    clock_from from reads ->
    fst (perform_all reads self) =
      map (fun '(_, r) => Ok (lapsed_answer r)) reads /\
    (reads <> [] -> _remain (snd (perform_all reads self)) = 0).
Proof.
  induction reads as [| [now r] rest IH]; intros from self Hl Hclock.
  - split; [reflexivity | congruence].
  - destruct Hclock as [Hfrom Hrest].
    pose proof (lapsed_read r now self (lapsed_mono _ _ _ Hl Hfrom))
      as (Hres & Hl' & Hzero).
    unfold result, after in Hres, Hl', Hzero.
    cbn [perform_all].
    destruct (perform r now self) as [o self'] eqn:E1; cbn [fst snd] in *.
    specialize (IH now self' Hl' Hrest) as [IHo IHz].
    destruct (perform_all rest self') as [os self''] eqn:E2; cbn [fst snd] in *.
    split.
    + cbn [map]. now rewrite Hres, IHo.
    + intros _. destruct rest as [| p rest'].
      * cbn in E2. now inversion E2; subst.
      * apply IHz. discriminate.
Qed.

Lemma overdue_mono (now now' : Z) (self : Timer.t) :
  overdue now self -> now <= now' -> overdue now' self.
Proof.
  intros [Hd | (Ha & u & Hu & Hlt)] Hnow; [now left | right].
  split; [exact Ha | exists u; split; [exact Hu | lia]].
Qed.

Lemma overdue_read (r : expiry_read) (now : Z) (self : Timer.t) :
  overdue now self ->
  _status (after (perform r) now self) = "done".
Proof.
  destruct self as [d a i rm st m ut]; unfold overdue; simpl.
  intros [-> | (-> & u & -> & Hlt)]; destruct r; unfold perform.
  all: timer_crush.
Qed.

Lemma overdue_reads (reads : list (Z * expiry_read)) :
  forall (from : Z) (self : Timer.t),
    overdue from self ->
    clock_from from reads ->
    reads <> [] ->
    _status (snd (perform_all reads self)) = "done".
Proof.
  induction reads as [| [now r] rest IH]; intros from self Ho Hclock Hne.
  - congruence.
  - destruct Hclock as [Hfrom Hrest].
    pose proof (overdue_read r now self (overdue_mono _ _ _ Ho Hfrom)) as Hd.
    unfold after in Hd. cbn [perform_all].
    destruct (perform r now self) as [o self'] eqn:E1; cbn [snd] in Hd.
    destruct rest as [| p rest'].
    + cbn. exact Hd.
    + specialize (IH now self' (or_introl Hd) Hrest).
      destruct (perform_all (p :: rest') self') as [os self''] eqn:E2.
      cbn [snd] in *. apply IH. discriminate.
Qed.

(** C1 (as amended).  An active timer with checkpoint [u] and [delta] at
    least what remained: every run of [time_remaining], [running] and [done]
    reads at clock readings from [u + delta] on answers 0, false and true,
    and leaves [_remain] at 0.  When [delta] is strictly more than what
    remained, such a read also leaves the status at ["done"]. *)
Theorem expiry_after_gap (self : Timer.t) (u delta : Z)
    (reads : list (Z * expiry_read)) :
  _status self = "active" ->
  update_time self = Some u ->
  _remain self <= delta ->
  clock_from (u + delta) reads ->
  fst (perform_all reads self) =
    map (fun '(_, r) => Ok (lapsed_answer r)) reads /\
  (reads <> [] -> _remain (snd (perform_all reads self)) = 0) /\
  (_remain self < delta -> reads <> [] ->
   _status (snd (perform_all reads self)) = "done").
Proof.
  intros Ha Hu Hle Hclock.
  assert (Hl : lapsed (u + delta) self).
  { right. split; [exact Ha | exists u; split; [exact Hu | lia]]. }
  destruct (lapsed_reads reads (u + delta) self Hl Hclock) as [Hans Hzero].
  repeat split; [exact Hans | exact Hzero |].
  intros Hlt Hne.
  apply (overdue_reads reads (u + delta) self); [| exact Hclock | exact Hne].
  right. split; [exact Ha | exists u; split; [exact Hu | lia]].
Qed.

(** A 10 second timer read at 10 and again at 12. *)
Lemma expiry_after_gap_witness :
  let self := create 0 10 "beep" in
  let reads := [(10, ReadTimeRemaining); (10, ReadRunning); (12, ReadDone)] in
  fst (perform_all reads self) = [Ok (VInt 0); Ok (VBool false); Ok (VBool true)]
  /\ _remain (snd (perform_all reads self)) = 0.
Proof.
  intros self reads.
  destruct (expiry_after_gap self 0 10 reads) as (Hans & Hzero & _).
  - reflexivity.
  - reflexivity.
  - simpl; lia.
  - simpl; lia.
  - split; [exact Hans | apply Hzero; discriminate].
Defined.

(** C1 as stated fails at the boundary: when the gap equals what remained,
    the recompute counts down to 0 but keeps the status ["active"], and
    further reads at that clock reading do not change it. *)
Lemma expiry_boundary_status_stays_active :
  let self := create 0 10 "beep" in
  _status self = "active" /\ update_time self = Some 0 /\ _remain self = 10 /\
  result time_remaining 10 self = Ok 0 /\
  result status 10 (after time_remaining 10 self) = Ok "active" /\
  result status 10 (after done 10 (after running 10 self)) = Ok "active" /\
  result status 10 (after time_remaining 10 self) <> Ok "done".
Proof.
  cbv zeta. repeat split; try reflexivity. discriminate.
Qed.

(** ** Assigning the remaining time *)

(** On a timer that is not done, assigning a positive value stores it and
    keeps the status. *)
Lemma assign_positive_remaining (self : Timer.t) (now v : Z) :
  _status self <> "done" ->
  0 < v ->
  result (time_remaining_setter v) now self = Ok tt /\
  _remain (after (time_remaining_setter v) now self) = v /\
  _status (after (time_remaining_setter v) now self) = _status self.
Proof.
  destruct self as [d a i rm st m ut]; simpl; intros Hnd Hv.
  timer_crush.
Qed.

(** On a done timer the setter routes the change to ["paused"] through the
    status setter, whose recompute zeroes [_remain] again and whose
    done-check ends the timer: the assigned value is lost. *)
Lemma assign_positive_remaining_done (self : Timer.t) (now v : Z) :
  _status self = "done" ->
  0 < v ->
  _status (after (time_remaining_setter v) now self) = "done" /\
  _remain (after (time_remaining_setter v) now self) = 0.
Proof.
  destruct self as [d a i rm st m ut]; simpl; intros -> Hv.
  timer_crush.
Qed.

(** C2, evaluated on the code: a finished timer ([end()] on a fresh 100
    second timer) assigned [time_remaining = 30] is still ["done"] with
    [_remain = 0], not ["paused"] with 30 left. *)
Theorem rearm_done_timer_lost :
  let self := after end_ 5 (create 0 100 "beep") in
  _status self = "done" /\
  _status (after (time_remaining_setter 30) 5 self) = "done" /\
  _remain (after (time_remaining_setter 30) 5 self) = 0 /\
  result paused 5 (after (time_remaining_setter 30) 5 self) = Ok false /\
  result time_remaining 5 (after (time_remaining_setter 30) 5 self) = Ok 0.
Proof.
  cbv zeta. repeat split; reflexivity.
Qed.

(** ** The done invariant *)

Lemma internal_update_done_inv (now : Z) (self : Timer.t) :
  done_inv (after _internal_update now self).
Proof.
  destruct self as [d a i rm st m ut]; unfold done_inv.
  timer_exec; intros; try (split; reflexivity); congruence.
Qed.

Lemma invoke_done_inv (c : call) (now : Z) (self : Timer.t) :
  done_inv self -> done_inv (after (invoke c) now self).
Proof.
  destruct self as [d a i rm st m ut]; unfold done_inv.
  destruct c as [| s | | v | | | | | | | [v |] [s |]]; cbn [_status _remain update_time].
  all: intros Hinv; timer_exec; intros;
    try (split; reflexivity); try congruence; try (apply Hinv; congruence).
Qed.

Lemma invoke_done_absorbing (c : call) (now : Z) (self : Timer.t) :
  done_inv self ->
  _status self = "done" ->
  rearms c = false ->
  _status (after (invoke c) now self) = "done" /\
  _remain (after (invoke c) now self) = 0.
Proof.
  destruct self as [d a i rm st m ut]; unfold done_inv, rearms.
  cbn [_status _remain update_time]; intros Hinv ->.
  destruct (Hinv eq_refl) as [-> ->]; clear Hinv.
  destruct c as [| s | | v | | | | | | | [v |] [s |]]; intros Hre.
  all: try (apply Z.ltb_ge in Hre).
  all: timer_crush.
Qed.

(** C3 (as amended).  A done timer has nothing left and no checkpoint; the
    recompute establishes this, every public call preserves it, and on a
    done timer every public call other than a request for a positive
    remaining time leaves the status ["done"] and [_remain] at 0, and
    [time_remaining] reads 0 at every later clock reading. *)
Theorem done_invariant_preserved (c : call) (now now' : Z) (self : Timer.t) :
  done_inv (after _internal_update now self) /\
  (done_inv self -> done_inv (after (invoke c) now self)) /\
  (done_inv self -> _status self = "done" -> rearms c = false ->
   _status (after (invoke c) now self) = "done" /\
   _remain (after (invoke c) now self) = 0 /\
   result time_remaining now' (after (invoke c) now self) = Ok 0).
Proof.
  split; [apply internal_update_done_inv |].
  split; [apply invoke_done_inv |].
  intros Hinv Hd Hre.
  destruct (invoke_done_absorbing c now self Hinv Hd Hre) as [Hs Hr].
  repeat split; [exact Hs | exact Hr |].
  destruct (after (invoke c) now self) as [d a i rm st m ut].
  cbn [_status _remain] in Hs, Hr; subst.
  timer_crush.
Qed.

(** C3 as stated fails: pausing a running timer clears the checkpoint of a
    timer that is neither done nor at 0, and a countdown that lands on 0
    leaves an active timer at 0. *)
Lemma pause_breaks_three_way_equivalence :
  let self := create 0 100 "beep" in
  done_iff_zero_iff_unchecked self /\
  ~ done_iff_zero_iff_unchecked (after (invoke CallPause) 0 self) /\
  ~ done_iff_zero_iff_unchecked (after (invoke GetTimeRemaining) 100 self).
Proof.
  cbv zeta. split; [| split].
  - split; split; cbn; intros H; discriminate H.
  - intros [_ [_ H]]. cbn in H. specialize (H eq_refl). discriminate H.
  - intros [[_ H] _]. cbn in H. specialize (H eq_refl). discriminate H.
Qed.

(** A finished timer asked to become active again. *)
Lemma done_invariant_preserved_witness :
  let self := after end_ 5 (create 0 100 "beep") in
  done_inv (after (invoke (SetStatus "active")) 9 self) /\
  _status (after (invoke (SetStatus "active")) 9 self) = "done".
Proof.
  intros self.
  destruct (done_invariant_preserved (SetStatus "active") 9 20 self)
    as (_ & Hpres & Habs).
  split.
  - apply Hpres. intros _. split; reflexivity.
  - apply Habs; [intros _; split; reflexivity | reflexivity | reflexivity].
Defined.

(** ** The status setter *)

Lemma is_valid_status_In (s : string) :
  is_valid_status s = true <-> In s valid_status.
Proof.
  unfold is_valid_status. rewrite existsb_exists. split.
  - intros (x & Hin & Heq). apply String.eqb_eq in Heq. now subst.
  - intros Hin. exists s. split; [exact Hin | apply String.eqb_refl].
Qed.

Lemma status_setter_valid_ok (s : string) (now : Z) (self : Timer.t) :
  is_valid_status s = true -> result (status_setter s) now self = Ok tt.
Proof.
  destruct self as [d a i rm st m ut]. unfold is_valid_status, valid_status.
  cbn [existsb]. intros Hv.
  unfold result. timer_exec; try reflexivity; try discriminate Hv.
Qed.

Lemma status_setter_invalid_raises (s : string) (now : Z) (self : Timer.t) :
  is_valid_status s = false ->
  status_setter s now self = (Raise (ValueError ("Invalid status " ++ s)), self).
Proof.
  intros Hv. unfold status_setter. rewrite Hv. reflexivity.
Qed.

(** C4.  The status setter raises exactly when the value is not one of
    ["active"], ["paused"], ["done"]; the exception is the [ValueError]
    carrying the rejected value, and the instance is left as it was. *)
Theorem status_setter_validation (s : string) (now : Z) (self : Timer.t) :
  ((exists e, result (status_setter s) now self = Raise e) <->
   ~ In s valid_status) /\
  (forall e, result (status_setter s) now self = Raise e ->
   e = ValueError ("Invalid status " ++ s) /\
   after (status_setter s) now self = self).
Proof.
  destruct (is_valid_status s) eqn:Hv.
  - pose proof (status_setter_valid_ok s now self Hv) as Hok.
    split; [split |].
    + intros [e He]. congruence.
    + intros Hnin. exfalso. apply Hnin. now apply is_valid_status_In.
    + intros e He. congruence.
  - pose proof (status_setter_invalid_raises s now self Hv) as Hr.
    unfold result, after. rewrite Hr. cbn [fst snd].
    split; [split |].
    + intros _ Hin. apply is_valid_status_In in Hin. congruence.
    + intros _. eexists. reflexivity.
    + intros e He. split; [congruence | reflexivity].
Qed.

(** An unknown status on a running timer. *)
Lemma status_setter_validation_witness :
  let self := create 0 100 "beep" in
  result (status_setter "stopped") 7 self =
    Raise (ValueError "Invalid status stopped") /\
  after (status_setter "stopped") 7 self = self.
Proof.
  intros self.
  destruct (status_setter_validation "stopped" 7 self) as [_ H].
  destruct (H (ValueError "Invalid status stopped") eq_refl) as [_ Hs].
  split; [reflexivity | exact Hs].
Defined.

(** ** Clamping of a non-positive remaining time *)

(** C5.  Assigning a remaining time [v <= 0], directly or through
    [update(time_remaining=v)], raises nothing and ends the timer: [done]
    answers true and [time_remaining] answers 0 from then on. *)
Theorem nonpositive_remaining_ends (self : Timer.t) (now now' v : Z) :
  v <= 0 ->
  result (time_remaining_setter v) now self = Ok tt /\
  result (update (Some v) None) now self = Ok tt /\
  after (update (Some v) None) now self =
    after (time_remaining_setter v) now self /\
  _status (after (time_remaining_setter v) now self) = "done" /\
  result done now' (after (time_remaining_setter v) now self) = Ok true /\
  result time_remaining now' (after (time_remaining_setter v) now self) = Ok 0.
Proof.
  destruct self as [d a i rm st m ut]. intros Hv.
  timer_crush.
Qed.

(** [update(time_remaining=-5)] on a paused timer. *)
Lemma nonpositive_remaining_ends_witness :
  let self := after pause 3 (create 0 100 "beep") in
  result (update (Some (-5)) None) 4 self = Ok tt /\
  result done 4 (after (update (Some (-5)) None) 4 self) = Ok true /\
  result time_remaining 4 (after (update (Some (-5)) None) 4 self) = Ok 0.
Proof.
  intros self.
  destruct (nonpositive_remaining_ends self 4 4 (-5)) as (_ & H2 & H3 & _ & H5 & H6).
  - lia.
  - rewrite H3. repeat split; assumption.
Defined.

(** ** Pause and resume *)

(** With a non-negative [_remain], pausing and restarting at one clock
    reading gives back the reading of [time_remaining], whether or not the
    value was read before the pause. *)
Lemma pause_start_same_instant (self : Timer.t) (now : Z) :
  0 <= _remain self ->
  result time_remaining now (after start now (after pause now self)) =
    result time_remaining now self /\
  result time_remaining now
    (after start now (after pause now (after time_remaining now self))) =
    result time_remaining now self.
Proof.
  destruct self as [d a i rm st m ut]; cbn [_remain]; intros Hm.
  timer_crush.
Qed.

(** C6.  On a timer that is not done (with the non-negative remaining time
    of the data model), [pause()] then [start()] with no wall-clock time
    elapsed between and around the calls leaves [time_remaining] as it was
    before the pause. *)
Theorem pause_start_roundtrip (self : Timer.t) (now : Z) :
  _status self <> "done" ->
  0 <= _remain self ->
  result time_remaining now (after start now (after pause now self)) =
    result time_remaining now self /\
  result time_remaining now
    (after start now (after pause now (after time_remaining now self))) =
    result time_remaining now self.
Proof.
  intros _ Hm. now apply pause_start_same_instant.
Qed.

(** A 100 second timer, 40 seconds in. *)
Lemma pause_start_roundtrip_witness :
  let self := create 0 100 "beep" in
  result time_remaining 40 (after start 40 (after pause 40 self)) = Ok 60.
Proof.
  intros self.
  destruct (pause_start_roundtrip self 40) as [H _].
  - discriminate.
  - simpl; lia.
  - rewrite H. reflexivity.
Defined.

(** The non-negativity the round trip relies on is kept by every call. *)
Lemma invoke_remain_nonneg (c : call) (now : Z) (self : Timer.t) :
  0 <= _remain self -> 0 <= _remain (after (invoke c) now self).
Proof.
  destruct self as [d a i rm st m ut]; cbn [_remain]; intros Hm.
  destruct c as [| s | | v | | | | | | | [v |] [s |]].
  all: timer_exec; try congruence; lia.
Qed.

(** ** [done] is absorbing under status writes *)

Lemma end_run (now : Z) (self : Timer.t) :
  _status (after end_ now self) = "done" /\
  _remain (after end_ now self) = 0 /\
  update_time (after end_ now self) = None /\
  after end_ now (after end_ now self) = after end_ now self.
Proof.
  destruct self as [d a i rm st m ut]. timer_crush.
Qed.

Lemma end_repeatedly_done (nows : list Z) :
  forall self : Timer.t,
    nows <> [] ->
    _status (end_repeatedly nows self) = "done" /\
    _remain (end_repeatedly nows self) = 0.
Proof.
  induction nows as [| now rest IH]; intros self Hne; [congruence |].
  unfold end_repeatedly. cbn [fold_left].
  destruct rest as [| now' rest'].
  - cbn [fold_left]. destruct (end_run now self) as (Hs & Hr & _). now split.
  - apply IH. discriminate.
Qed.

(** C7.  On a timer whose status is ["done"], a status assignment, direct
    or through [update(status=s)], leaves the status ["done"]; [_remain] is
    0 afterwards whenever the value is an accepted one (a rejected value
    raises and changes nothing, so [_remain] is then 0 if it was).  [end()]
    called any number of times, at least once, on any timer leaves it
    ["done"] with [_remain] 0, and a second [end()] changes nothing. *)
Theorem done_absorbs_status_writes (self any : Timer.t) (now : Z) (s : string)
    (nows : list Z) :
  _status self = "done" ->
  _status (after (status_setter s) now self) = "done" /\
  (In s valid_status -> _remain (after (status_setter s) now self) = 0) /\
  (_remain self = 0 -> _remain (after (status_setter s) now self) = 0) /\
  after (update None (Some s)) now self = after (status_setter s) now self /\
  (nows <> [] ->
   _status (end_repeatedly nows any) = "done" /\
   _remain (end_repeatedly nows any) = 0) /\
  after end_ now (after end_ now any) = after end_ now any.
Proof.
  intros Hd.
  assert (Hend : after end_ now (after end_ now any) = after end_ now any)
    by apply end_run.
  assert (Hrep : nows <> [] ->
                 _status (end_repeatedly nows any) = "done" /\
                 _remain (end_repeatedly nows any) = 0)
    by apply end_repeatedly_done.
  destruct self as [d a i rm st m ut]; cbn [_status _remain] in *; subst st.
  unfold valid_status; cbn [In].
  repeat split; try assumption; try (now apply Hrep).
  all: timer_exec; try reflexivity; try congruence; intros; try lia.
  all: intuition congruence.
Qed.

(** [update(status='active')] on a finished timer, and [end()] called three
    times on a running one. *)
Lemma done_absorbs_status_writes_witness :
  let self := after end_ 5 (create 0 100 "beep") in
  _status (after (update None (Some "active")) 9 self) = "done" /\
  _remain (after (update None (Some "active")) 9 self) = 0 /\
  _status (end_repeatedly [1; 2; 3] (create 0 100 "beep")) = "done".
Proof.
  intros self.
  destruct (done_absorbs_status_writes self (create 0 100 "beep") 9 "active"
              [1; 2; 3] eq_refl) as (Hs & Hr & _ & Hu & Hrep & _).
  rewrite Hu. split; [exact Hs | split].
  - apply Hr. simpl. auto.
  - apply Hrep. discriminate.
Defined.

(** ** A fresh timer *)

(** When the instance is built at the very clock reading at which the class
    was defined, its checkpoint is the creation time and the full duration
    is left. *)
Lemma fresh_timer_at_class_time (now d : Z) (a : string) :
  0 < d ->
  update_time (create now d a) = Some now /\
  result time_remaining now (create now d a) = Ok d /\
  result status now (create now d a) = Ok "active" /\
  result running now (create now d a) = Ok true.
Proof.
  intros Hd. timer_crush.
Qed.

(** In general the countdown of a fresh timer has started when the class
    was defined, not when the instance was built. *)
Lemma fresh_timer_counts_from_class_time (class_time now d : Z) (a : string) :
  0 <= now - class_time <= d ->
  update_time (create class_time d a) = Some class_time /\
  result time_remaining now (create class_time d a) =
    Ok (d - (now - class_time)).
Proof.
  intros Hd. timer_crush.
Qed.

(** C9, evaluated on the code.  The class is defined at clock 0 and
    [Timer(100, "beep")] is built at clock 50: its checkpoint is 0, not 50,
    and a read at 50, with no time elapsed since the construction, answers
    50, not 100.  Built at clock 200 the same timer is finished at its
    first read. *)
Theorem fresh_timer_checkpoint_is_class_time :
  let self := create 0 100 "beep" in
  update_time self = Some 0 /\
  update_time self <> Some 50 /\
  result time_remaining 50 self = Ok 50 /\
  result time_remaining 50 self <> Ok 100 /\
  result running 200 self = Ok false /\
  _status (after time_remaining 200 self) = "done".
Proof.
  cbv zeta. repeat split; try reflexivity; discriminate.
Qed.

(** ** Frame: duration, action and id *)

(** C10.  Every public call leaves [timer_duration], [action] and [id] as
    they were, and none depends on [timer_duration]: on an instance that
    differs in that field only, the call produces the same outcome and the
    same instance up to that field. *)
Theorem invoke_frame (c : call) (now d' : Z) (self : Timer.t) :
  timer_duration (after (invoke c) now self) = timer_duration self /\
  action (after (invoke c) now self) = action self /\
  id (after (invoke c) now self) = id self /\
  result (invoke c) now (with_timer_duration d' self) =
    result (invoke c) now self /\
  after (invoke c) now (with_timer_duration d' self) =
    with_timer_duration d' (after (invoke c) now self).
Proof.
  destruct self as [d a i rm st m ut]. unfold with_timer_duration.
  destruct c as [| s | | v | | | | | | | [v |] [s |]].
  all: timer_exec; repeat split; try reflexivity; congruence.
Qed.

(** * Further properties of the timer *)

(** X1.  An active timer paused before it runs out and restarted later
    loses only the time it was running: the time between [pause()] at [t1]
    and [start()] at [t2] is not charged, whatever its length. *)
Theorem paused_time_is_not_charged (self : Timer.t) (u t1 t2 t3 : Z) :
  _status self = "active" ->
  update_time self = Some u ->
  t1 - u <= _remain self ->
  t3 - t2 <= _remain self - (t1 - u) ->
  result paused t1 (after pause t1 self) = Ok true /\
  result time_remaining t2 (after pause t1 self) =
    Ok (_remain self - (t1 - u)) /\
  result time_remaining t3 (after start t2 (after pause t1 self)) =
    Ok (_remain self - (t1 - u) - (t3 - t2)).
Proof.
  destruct self as [d a i rm st m ut]; cbn [_status _remain update_time].
  intros -> -> H1 H2. timer_crush.
Qed.

(** Paused 40 seconds in, restarted 1000 seconds later, read 25 seconds
    after that. *)
Lemma paused_time_is_not_charged_witness :
  result time_remaining 1065
    (after start 1040 (after pause 40 (create 0 100 "beep"))) = Ok 35.
Proof.
  destruct (paused_time_is_not_charged (create 0 100 "beep") 0 40 1040 1065)
    as (_ & _ & H).
  - reflexivity.
  - reflexivity.
  - simpl; lia.
  - simpl; lia.
  - exact H.
Defined.





(** X4.  [update(time_remaining=v, status=s)] with a status the setter
    rejects raises its [ValueError] after the remaining time has been
    assigned: the instance is left as [time_remaining = v] alone leaves
    it. *)
Theorem update_rejected_status_keeps_new_remaining
    (self : Timer.t) (now v : Z) (s : string) :
  ~ In s valid_status ->
  result (update (Some v) (Some s)) now self =
    Raise (ValueError ("Invalid status " ++ s)) /\
  after (update (Some v) (Some s)) now self =
    after (time_remaining_setter v) now self.
Proof.
  intros Hin.
  assert (Hv : is_valid_status s = false).
  { destruct (is_valid_status s) eqn:E; [| reflexivity].
    exfalso. apply Hin. now apply is_valid_status_In. }
  assert (Hok : result (time_remaining_setter v) now self = Ok tt).
  { destruct self as [d a i rm st m ut]. timer_crush. }
  unfold result, after, update, bind in *.
  destruct (time_remaining_setter v now self) as [o self'] eqn:E.
  cbn [fst snd] in *. subst o.
  rewrite (status_setter_invalid_raises s now self' Hv). split; reflexivity.
Qed.

(** [update(time_remaining=30, status='stopped')] on a running timer. *)
Lemma update_rejected_status_keeps_new_remaining_witness :
  result (update (Some 30) (Some "stopped")) 7 (create 0 100 "beep") =
    Raise (ValueError "Invalid status stopped") /\
  _remain (after (update (Some 30) (Some "stopped")) 7 (create 0 100 "beep")) =
    30.
Proof.
  destruct (update_rejected_status_keeps_new_remaining
              (create 0 100 "beep") 7 30 "stopped") as [Hr Ha].
  - simpl. intros [H | [H | [H | []]]]; discriminate H.
  - split; [exact Hr | rewrite Ha; reflexivity].
Defined.

(** X5.  Assigning a positive remaining time to a timer that is not done
    keeps its status and restarts the count from the assignment: the
    checkpoint is the clock reading of the call on an active timer and is
    cleared otherwise, and a read at that clock reading answers the value
    assigned. *)
Theorem positive_remaining_restarts_checkpoint (self : Timer.t) (now v : Z) :
  _status self <> "done" ->
  0 < v ->
  _remain (after (time_remaining_setter v) now self) = v /\
  _status (after (time_remaining_setter v) now self) = _status self /\
  update_time (after (time_remaining_setter v) now self) =
    (if _status self =? "active" then Some now else None) /\
  result time_remaining now (after (time_remaining_setter v) now self) = Ok v.
Proof.
  destruct self as [d a i rm st m ut]; cbn [_status _remain update_time].
  intros Hnd Hv. timer_crush.
Qed.

(** [time_remaining = 30] on a running timer, at clock 90. *)
Lemma positive_remaining_restarts_checkpoint_witness :
  update_time (after (time_remaining_setter 30) 90 (create 0 100 "beep")) =
    Some 90 /\
  result time_remaining 90
    (after (time_remaining_setter 30) 90 (create 0 100 "beep")) = Ok 30.
Proof.
  destruct (positive_remaining_restarts_checkpoint (create 0 100 "beep") 90 30)
    as (_ & _ & Hu & Hr).
  - discriminate.
  - lia.
  - split; [exact Hu | exact Hr].
Defined.

Lemma paused_read (r : expiry_read) (now : Z) (self : Timer.t) :
  _status self = "paused" ->
  result (perform r) now self = Ok (paused_answer (_remain self) r) /\
  _status (after (perform r) now self) = "paused" /\
  _remain (after (perform r) now self) = _remain self /\
  update_time (after (perform r) now self) = None.
Proof.
  destruct self as [d a i rm st m ut]; cbn [_status _remain].
  intros ->. destruct r; unfold perform, paused_answer; timer_crush.
Qed.

(** X6.  No time accrues on a paused timer: every run of [time_remaining],
    [running] and [done] reads, at any clock readings, answers the stored
    remaining time, false, and whether that time is at most 0, and leaves
    the timer paused with the same remaining time. *)
Theorem paused_timer_holds (reads : list (Z * expiry_read)) :
  forall self : Timer.t,
    _status self = "paused" ->
    fst (perform_all reads self) =
      map (fun '(_, r) => Ok (paused_answer (_remain self) r)) reads /\
    _status (snd (perform_all reads self)) = "paused" /\
    _remain (snd (perform_all reads self)) = _remain self.
Proof.
  induction reads as [| [now r] rest IH]; intros self Hp.
  - split; [reflexivity | split; [exact Hp | reflexivity]].
  - destruct (paused_read r now self Hp) as (Hres & Hs & Hm & _).
    unfold result, after in Hres, Hs, Hm. cbn [perform_all].
    destruct (perform r now self) as [o self'] eqn:E1; cbn [fst snd] in *.
    destruct (IH self' Hs) as (IHo & IHs & IHm).
    destruct (perform_all rest self') as [os self''] eqn:E2; cbn [fst snd] in *.
    rewrite Hm in IHo, IHm.
    split; [| split; [exact IHs | exact IHm]].
    cbn [map]. now rewrite Hres, IHo.
Qed.

(** A timer paused with 60 seconds left, read much later and earlier. *)
Lemma paused_timer_holds_witness :
  let self := after pause 40 (create 0 100 "beep") in
  fst (perform_all [(5000, ReadTimeRemaining); (7, ReadRunning)] self) =
    [Ok (VInt 60); Ok (VBool false)].
Proof.
  intros self.
  destruct (paused_timer_holds [(5000, ReadTimeRemaining); (7, ReadRunning)]
              self eq_refl) as [H _].
  exact H.
Defined.

Lemma time_remaining_nonneg (now : Z) (self : Timer.t) :
  0 <= _remain self ->
  exists r, result time_remaining now self = Ok r /\ 0 <= r.
Proof.
  destruct self as [d a i rm st m ut]; cbn [_remain]; intros Hm.
  timer_exec; eexists; (split; [reflexivity | lia]).
Qed.



(** * Device tables *)

Section DeviceTables.

Import DeviceConfig.
Local Open Scope pyres_scope.

(** Structural induction on values, through the lists they nest. *)
Lemma pyval_nested_ind (P : pyval -> Prop) :
  (forall s, P (PStr s)) ->
  (forall z, P (PInt z)) ->
  (forall m, P (PEnum m)) ->
  (forall items, Forall P items -> P (PList items)) ->
  forall v, P v.
Proof.
  intros Hs Hz He Hl.
  fix IH 1. intros [s | z | m | items].
  - apply Hs.
  - apply Hz.
  - apply He.
  - apply Hl. induction items as [| x rest IHrest].
    + constructor.
    + constructor; [apply IH | exact IHrest].
Qed.

Lemma pyval_eqb_eq (a : pyval) : forall b, pyval_eqb a b = true -> a = b.
Proof.
  induction a as [s | z | m | items IH] using pyval_nested_ind;
    intros [s' | z' | m' | items']; cbn; try discriminate.
  - intros H. apply String.eqb_eq in H. now subst.
  - intros H. apply Z.eqb_eq in H. now subst.
  - intros H. apply String.eqb_eq in H. now subst.
  - revert items'. induction IH as [| x rest Hx _ IHrest]; intros [| y rest'];
      try discriminate; [reflexivity |].
    intros H. apply andb_true_iff in H as [Hxy Hrest].
    apply Hx in Hxy. subst y.
    specialize (IHrest rest' Hrest). now inversion IHrest.
Qed.

Lemma pyval_eqb_refl (a : pyval) : pyval_eqb a a = true.
Proof.
  induction a as [s | z | m | items IH] using pyval_nested_ind; cbn.
  - apply String.eqb_refl.
  - apply Z.eqb_refl.
  - apply String.eqb_refl.
  - induction IH as [| x rest Hx _ IHrest]; [reflexivity |].
    now rewrite Hx, IHrest.
Qed.

Lemma val_lookup_setitem (q k v : pyval) (d : valdict) :
  val_lookup q (val_setitem k v d) =
    if pyval_eqb q k then Some v else val_lookup q d.
Proof.
  induction d as [| [k0 w] rest IH]; cbn.
  - reflexivity.
  - destruct (pyval_eqb k k0) eqn:Ek; cbn.
    + apply pyval_eqb_eq in Ek. subst k0.
      destruct (pyval_eqb q k); reflexivity.
    + destruct (pyval_eqb q k0) eqn:Eq.
      * apply pyval_eqb_eq in Eq. subst k0.
        destruct (pyval_eqb q k) eqn:Eqk; [| reflexivity].
        apply pyval_eqb_eq in Eqk. subst k.
        rewrite pyval_eqb_refl in Ek. discriminate.
      * exact IH.
Qed.

(** The inner loop of [model_dict] over a list of names. *)
Lemma model_dict_inner (dev_dict : pydict) (m : pyval) (names : list string) :
  lookup "module" dev_dict = Some m ->
  forall acc : valdict,
  exists acc',
    for_each
      (fun (model : pyval) (model_modules : valdict) =>
         module <- getitem "module" dev_dict ;;
         if hashable model
         then Ok (val_setitem model module model_modules)
         else Raise TypeError)
      (map PStr names) acc = Ok acc' /\
    forall cm,
      val_lookup (PStr cm) acc' =
        if existsb (pyval_eqb (PStr cm)) (map PStr names)
        then Some m else val_lookup (PStr cm) acc.
Proof.
  intros Hm. induction names as [| n rest IH]; intros acc.
  - exists acc. split; [reflexivity | intros cm; reflexivity].
  - cbn [map for_each]. unfold getitem at 1. rewrite Hm. cbn [bind hashable].
    destruct (IH (val_setitem (PStr n) m acc)) as (acc' & Hrun & Hlook).
    exists acc'. split; [exact Hrun |].
    intros cm. rewrite Hlook, val_lookup_setitem. cbn [existsb].
    destruct (pyval_eqb (PStr cm) (PStr n)); cbn [orb];
      destruct (existsb (pyval_eqb (PStr cm)) (map PStr rest)); reflexivity.
Qed.

Lemma lists_module_table_entry (cm : string) (dev_dict : pydict)
    (names : list string) :
  lookup "config_modules" dev_dict = Some (PList (map PStr names)) ->
  lists_module cm dev_dict = existsb (pyval_eqb (PStr cm)) (map PStr names).
Proof.
  intros H. unfold lists_module. now rewrite H.
Qed.

Lemma model_dict_from (feature_dict : list (string * pydict)) :
  Forall table_entry (map snd feature_dict) ->
  forall acc : valdict,
  exists model_modules,
    for_each
      (fun (entry : string * pydict) (model_modules : valdict) =>
         let dev_dict := snd entry in
         config_modules <- getitem "config_modules" dev_dict ;;
         models <- py_iter config_modules ;;
         for_each
           (fun (model : pyval) (model_modules : valdict) =>
              module <- getitem "module" dev_dict ;;
              if hashable model
              then Ok (val_setitem model module model_modules)
              else Raise TypeError)
           models model_modules)
      feature_dict acc = Ok model_modules /\
    forall cm,
      val_lookup (PStr cm) model_modules =
        match last_listing cm (map snd feature_dict) with
        | Some dev_dict => lookup "module" dev_dict
        | None => val_lookup (PStr cm) acc
        end.
Proof.
  induction feature_dict as [| [name dev_dict] rest IH]; intros Hwf acc.
  - exists acc. split; [reflexivity | intros cm; reflexivity].
  - cbn [map snd] in Hwf. inversion Hwf as [| ? ? Hentry Hrest]; subst.
    destruct Hentry as [[m Hm] [names Hnames]].
    cbn [for_each snd]. unfold getitem at 1. rewrite Hnames.
    cbn [bind py_iter].
    destruct (model_dict_inner dev_dict m names Hm acc) as (acc1 & Hrun1 & Hl1).
    rewrite Hrun1. cbn [bind].
    destruct (IH Hrest acc1) as (mm & Hrun & Hl).
    exists mm. split; [exact Hrun |].
    intros cm. rewrite Hl. cbn [map snd last_listing].
    destruct (last_listing cm (map snd rest)); [reflexivity |].
    rewrite Hl1, (lists_module_table_entry cm dev_dict names Hnames).
    destruct (existsb (pyval_eqb (PStr cm)) (map PStr names));
      [symmetry; exact Hm | reflexivity].
Qed.

Lemma passes_over_not_listed (cm : string) (dev_dict : pydict) :
  passes_over cm dev_dict -> lists_module cm dev_dict = false.
Proof.
  intros (items & Hl & Hn). unfold lists_module. now rewrite Hl.
Qed.

Lemma lists_module_found (cm : string) (dev_dict : pydict) :
  lists_module cm dev_dict = true ->
  exists items,
    lookup "config_modules" dev_dict = Some (PList items) /\
    py_in cm (PList items) = Ok true.
Proof.
  unfold lists_module.
  destruct (lookup "config_modules" dev_dict) as [[s | z | m | items] |];
    try discriminate.
  intros H. exists items. split; [reflexivity | unfold py_in; now rewrite H].
Qed.

(** With every entry a table entry, [get_config_dict] answers the first
    device that lists the module. *)
Lemma get_config_dict_find (cm : string) (feature_dict : list (string * pydict)) :
  Forall table_entry (map snd feature_dict) ->
  get_config_dict cm feature_dict =
    Ok match find (lists_module cm) (map snd feature_dict) with
       | Some dev_dict => dev_dict
       | None => []
       end.
Proof.
  induction feature_dict as [| [name dev_dict] rest IH]; intros Hwf.
  - reflexivity.
  - cbn [map snd] in Hwf. inversion Hwf as [| ? ? Hentry Hrest]; subst.
    destruct Hentry as [_ [names Hnames]].
    cbn [get_config_dict map snd find]. unfold getitem. rewrite Hnames.
    cbn [bind py_in].
    rewrite (lists_module_table_entry cm dev_dict names Hnames).
    destruct (existsb (pyval_eqb (PStr cm)) (map PStr names));
      [reflexivity | now apply IH].
Qed.

Lemma last_listing_unique (cm : string) (devs : list pydict) (d : pydict) :
  (forall d1 d2, In d1 devs -> In d2 devs ->
     lists_module cm d1 = true -> lists_module cm d2 = true -> d1 = d2) ->
  find (lists_module cm) devs = Some d ->
  last_listing cm devs = Some d.
Proof.
  induction devs as [| x rest IH]; intros Huniq Hfind; [discriminate |].
  cbn [find] in Hfind. cbn [last_listing].
  destruct (lists_module cm x) eqn:Ex.
  - inversion Hfind; subst x.
    destruct (last_listing cm rest) as [d' |] eqn:El; [| reflexivity].
    assert (Hin : In d' rest /\ lists_module cm d' = true).
    { clear -El. induction rest as [| y r IHr]; [discriminate |].
      cbn [last_listing] in El.
      destruct (last_listing cm r) as [z |] eqn:Er.
      - inversion El; subst z. destruct (IHr eq_refl) as [Hi Hl].
        split; [now right | exact Hl].
      - destruct (lists_module cm y) eqn:Ey; [| discriminate].
        inversion El; subst y. split; [now left | exact Ey]. }
    destruct Hin as [Hin Hl].
    f_equal. apply Huniq; [now right | now left | exact Hl | exact Ex].
  - rewrite (IH (fun d1 d2 H1 H2 => Huniq d1 d2 (or_intror H1) (or_intror H2))
               Hfind).
    reflexivity.
Qed.

(** X8.  On a table whose entries each have a ["module"] and a list of
    names under ["config_modules"], [model_dict] raises nothing, and the
    class it records for a configuration module is the one of the last
    device that lists it; a module no device lists has no entry. *)
Theorem model_dict_last_listing_wins (feature_dict : list (string * pydict)) :
  Forall table_entry (map snd feature_dict) ->
  exists model_modules,
    model_dict feature_dict = Ok model_modules /\
    forall cm,
      val_lookup (PStr cm) model_modules =
        match last_listing cm (map snd feature_dict) with
        | Some dev_dict => lookup "module" dev_dict
        | None => None
        end.
Proof.
  intros Hwf. destruct (model_dict_from feature_dict Hwf []) as (mm & Hrun & Hl).
  exists mm. split; [exact Hrun |].
  intros cm. rewrite Hl. destruct (last_listing cm (map snd feature_dict));
    reflexivity.
Qed.

(** X9.  The lookups by configuration module stop at the first device that
    lists it: they answer that device's dictionary, or its value under the
    key with [[]] as default, whatever follows in the table. *)
Theorem config_lookup_first_match (key cm name : string)
    (pre post : list (string * pydict)) (dev_dict : pydict) :
  Forall (passes_over cm) (map snd pre) ->
  lists_module cm dev_dict = true ->
  get_config_dict cm (pre ++ (name, dev_dict) :: post) = Ok dev_dict /\
  device_config_by_key key cm (pre ++ (name, dev_dict) :: post) =
    Ok (get key (PList []) dev_dict).
Proof.
  intros Hpre Hd. induction pre as [| [n d] rest IH].
  - cbn [app get_config_dict device_config_by_key].
    destruct (lists_module_found cm dev_dict Hd) as (items & Hl & Hin).
    unfold getitem. rewrite Hl. cbn [bind]. rewrite Hin. cbn [bind].
    split; reflexivity.
  - cbn [map snd] in Hpre. inversion Hpre as [| ? ? Hpass Hrest]; subst.
    destruct Hpass as (items & Hl & Hn).
    cbn [app get_config_dict device_config_by_key]. unfold getitem.
    rewrite Hl. cbn [bind py_in]. rewrite Hn. now apply IH.
Qed.

(** X10.  When no device of the table lists the configuration module, the
    lookups raise nothing and answer the empty defaults: [{}] for
    [get_config_dict], [[]] for [device_config_by_key], [get_features] and
    [get_modes]. *)
Theorem config_lookup_unknown_module (key cm : string)
    (feature_dict : list (string * pydict)) :
  Forall (passes_over cm) (map snd feature_dict) ->
  get_config_dict cm feature_dict = Ok [] /\
  device_config_by_key key cm feature_dict = Ok (PList []) /\
  get_features cm feature_dict = Ok (PList []) /\
  get_modes cm feature_dict = Ok (PList []).
Proof.
  intros Hall.
  assert (H : forall k, device_config_by_key k cm feature_dict = Ok (PList [])).
  { intros k. induction feature_dict as [| [n d] rest IH]; [reflexivity |].
    cbn [map snd] in Hall. inversion Hall as [| ? ? Hpass Hrest]; subst.
    destruct Hpass as (items & Hl & Hn).
    cbn [device_config_by_key]. unfold getitem. rewrite Hl.
    cbn [bind py_in]. rewrite Hn. now apply IH. }
  repeat split; try apply H.
  induction feature_dict as [| [n d] rest IH]; [reflexivity |].
  cbn [map snd] in Hall. inversion Hall as [| ? ? Hpass Hrest]; subst.
  destruct Hpass as (items & Hl & Hn).
  cbn [get_config_dict]. unfold getitem. rewrite Hl.
  cbn [bind py_in]. rewrite Hn. apply IH; [exact Hrest |].
  intros k. specialize (H k). cbn [device_config_by_key] in H.
  unfold getitem in H. rewrite Hl in H. cbn [bind py_in] in H.
  now rewrite Hn in H.
Qed.

(** X11.  Reading a key by configuration module is fetching the device's
    dictionary and reading the key there with [[]] as default; the two
    raise the same exceptions. *)
Theorem device_config_by_key_factors (key cm : string)
    (feature_dict : list (string * pydict)) :
  device_config_by_key key cm feature_dict =
    (dev_dict <- get_config_dict cm feature_dict ;;
     Ok (get key (PList []) dev_dict)).
Proof.
  induction feature_dict as [| [n d] rest IH]; [reflexivity |].
  cbn [device_config_by_key get_config_dict].
  destruct (getitem "config_modules" d) as [cms | e]; [| reflexivity].
  cbn [bind]. destruct (py_in cm cms) as [[|] | e]; cbn [bind];
    [reflexivity | exact IH | reflexivity].
Qed.

(** X12.  A device without ["config_modules"] makes the lookups that reach
    it raise [KeyError]: every device before it is passed over, and none
    after it is consulted. *)
Theorem config_lookup_missing_config_modules (key cm name : string)
    (pre post : list (string * pydict)) (dev_dict : pydict) :
  Forall (passes_over cm) (map snd pre) ->
  lookup "config_modules" dev_dict = None ->
  get_config_dict cm (pre ++ (name, dev_dict) :: post) =
    Raise (KeyError "config_modules") /\
  device_config_by_key key cm (pre ++ (name, dev_dict) :: post) =
    Raise (KeyError "config_modules").
Proof.
  intros Hpre Hd. induction pre as [| [n d] rest IH].
  - cbn [app get_config_dict device_config_by_key]. unfold getitem.
    rewrite Hd. split; reflexivity.
  - cbn [map snd] in Hpre. inversion Hpre as [| ? ? Hpass Hrest]; subst.
    destruct Hpass as (items & Hl & Hn).
    cbn [app get_config_dict device_config_by_key]. unfold getitem.
    rewrite Hl. cbn [bind py_in]. rewrite Hn. now apply IH.
Qed.

(** X13.  When at most one device lists a configuration module, the class
    [model_dict] records for it is the ["module"] of the dictionary
    [get_config_dict] answers. *)
Theorem model_dict_agrees_with_get_config_dict (cm : string)
    (feature_dict : list (string * pydict)) (model_modules : valdict)
    (dev_dict : pydict) :
  Forall table_entry (map snd feature_dict) ->
  (forall d1 d2,
     In d1 (map snd feature_dict) -> In d2 (map snd feature_dict) ->
     lists_module cm d1 = true -> lists_module cm d2 = true -> d1 = d2) ->
  model_dict feature_dict = Ok model_modules ->
  get_config_dict cm feature_dict = Ok dev_dict ->
  lists_module cm dev_dict = true ->
  val_lookup (PStr cm) model_modules = lookup "module" dev_dict.
Proof.
  intros Hwf Huniq Hmd Hgc Hlists.
  destruct (model_dict_from feature_dict Hwf []) as (mm & Hrun & Hl).
  change (model_dict feature_dict = Ok mm) in Hrun.
  rewrite Hrun in Hmd. inversion Hmd; subst mm.
  rewrite (get_config_dict_find cm feature_dict Hwf) in Hgc.
  inversion Hgc as [Hfind]. rewrite Hl.
  destruct (find (lists_module cm) (map snd feature_dict)) as [d |] eqn:Ef.
  - subst d. now rewrite (last_listing_unique cm _ dev_dict Huniq Ef).
  - subst dev_dict. discriminate Hlists.
Qed.

End DeviceTables.


Lemma sample_table_entries :
  Forall table_entry (map snd sample_table).
Proof.
  repeat constructor.
  - eexists; reflexivity.
  - exists ["WiFiBTOnboardingNotify_AirHumidifier_Classic200S_JP";
            "WiFiBTOnboardingNotify_AirHumidifier_Classic200S_US"].
    reflexivity.
  - eexists; reflexivity.
  - exists ["WFON_AHM_LUH-D301S-WUSR_US";
            "WiFiBTOnboardingNotify_AirHumidifier_Classic200S_US"].
    reflexivity.
Qed.

(** The module both rows list is recorded with the class of the second. *)
Lemma model_dict_last_listing_wins_witness :
  exists model_modules,
    DeviceConfig.model_dict sample_table = DeviceConfig.Ok model_modules /\
    DeviceConfig.val_lookup
      (DeviceConfig.PStr "WiFiBTOnboardingNotify_AirHumidifier_Classic200S_US")
      model_modules = Some (DeviceConfig.PStr "VeSyncHumid200300S").
Proof.
  destruct (model_dict_last_listing_wins sample_table sample_table_entries)
    as (mm & Hrun & Hl).
  exists mm. split; [exact Hrun | rewrite Hl; reflexivity].
Defined.

(** The second row is found behind the first, which does not list the
    module. *)
Lemma config_lookup_first_match_witness :
  DeviceConfig.device_config_by_key "mist_levels" "WFON_AHM_LUH-D301S-WUSR_US"
    sample_table =
    DeviceConfig.Ok
      (DeviceConfig.PList [DeviceConfig.PInt 1; DeviceConfig.PInt 2]).
Proof.
  destruct (config_lookup_first_match "mist_levels" "WFON_AHM_LUH-D301S-WUSR_US"
              "Dual200S" (firstn 1 sample_table) []
              (snd (nth 1 sample_table ("", [])))) as [_ H].
  - repeat constructor. eexists. split; reflexivity.
  - reflexivity.
  - exact H.
Defined.

(** A module no row lists. *)
Lemma config_lookup_unknown_module_witness :
  DeviceConfig.get_features "WFON_APR_LAP-C301S-WJP_JP" sample_table =
    DeviceConfig.Ok (DeviceConfig.PList []) /\
  DeviceConfig.get_config_dict "WFON_APR_LAP-C301S-WJP_JP" sample_table =
    DeviceConfig.Ok [].
Proof.
  destruct (config_lookup_unknown_module "features" "WFON_APR_LAP-C301S-WJP_JP"
              sample_table) as (Hd & _ & Hf & _).
  - repeat constructor; eexists; split; reflexivity.
  - split; [exact Hf | exact Hd].
Defined.

(** A row without ["config_modules"] behind the two rows of the table. *)
Lemma config_lookup_missing_config_modules_witness :
  DeviceConfig.get_config_dict "WFON_APR_LAP-C301S-WJP_JP"
    (sample_table ++ [("Core300S", [("module", DeviceConfig.PStr "VeSyncAirBypass")])]) =
    DeviceConfig.Raise (DeviceConfig.KeyError "config_modules").
Proof.
  destruct (config_lookup_missing_config_modules "features"
              "WFON_APR_LAP-C301S-WJP_JP" "Core300S" sample_table []
              [("module", DeviceConfig.PStr "VeSyncAirBypass")]) as [H _].
  - repeat constructor; eexists; split; reflexivity.
  - reflexivity.
  - exact H.
Defined.

(** The module only the second row lists. *)
Lemma model_dict_agrees_with_get_config_dict_witness :
  exists model_modules,
    DeviceConfig.model_dict sample_table = DeviceConfig.Ok model_modules /\
    DeviceConfig.val_lookup (DeviceConfig.PStr "WFON_AHM_LUH-D301S-WUSR_US")
      model_modules = Some (DeviceConfig.PStr "VeSyncHumid200300S").
Proof.
  destruct (DeviceConfig.model_dict sample_table) as [mm | e] eqn:Hmm;
    [| discriminate Hmm].
  exists mm. split; [reflexivity |].
  rewrite (model_dict_agrees_with_get_config_dict "WFON_AHM_LUH-D301S-WUSR_US"
             sample_table mm (snd (nth 1 sample_table ("", [])))).
  - reflexivity.
  - exact sample_table_entries.
  - intros d1 d2 H1 H2 L1 L2. simpl in H1, H2.
    destruct H1 as [<- | [<- | []]]; destruct H2 as [<- | [<- | []]];
      try reflexivity; discriminate.
  - exact Hmm.
  - reflexivity.
  - reflexivity.
Defined.

(** * Clamping *)

Section Clamping.

Import Numeric.

Variable float : Type.
Variable float_of_str : string -> option float.
Variable int_of_str : string -> option Z.
Variable float_lt : Z + float -> Z + float -> bool.

(** X14.  When the value and the two bounds are integers (or [None], or
    strings that read as integers) and the lower bound does not exceed the
    upper one, [between_values] answers an integer within the bounds: the
    value itself when it lies within them, else the bound it crossed. *)
Theorem between_values_clamps (value min_val max_val : numeric_t float)
    (x lo hi : Z) :
  numberfy float float_of_str int_of_str value = Int x ->
  numberfy float float_of_str int_of_str min_val = Int lo ->
  numberfy float float_of_str int_of_str max_val = Int hi ->
  lo <= hi ->
  exists r,
    between_values float float_of_str int_of_str float_lt
      value min_val max_val = Int r /\
    lo <= r <= hi /\
    (lo <= x <= hi -> r = x) /\
    (x < lo -> r = lo) /\
    (hi < x -> r = hi).
Proof.
  intros Hx Hlo Hhi Hle. unfold between_values.
  rewrite Hx, Hlo, Hhi. unfold py_min, py_max, lt.
  destruct (Z.ltb_spec x hi); cbn [lt].
  - destruct (Z.ltb_spec x lo); eexists; (split; [reflexivity | lia]).
  - destruct (Z.ltb_spec hi lo); eexists; (split; [reflexivity | lia]).
Qed.

(** X15.  With integer bounds given the wrong way round (the lower above
    the upper), [between_values] answers the lower bound whatever the
    integer value. *)
Theorem between_values_crossed_bounds (value min_val max_val : numeric_t float)
    (x lo hi : Z) :
  numberfy float float_of_str int_of_str value = Int x ->
  numberfy float float_of_str int_of_str min_val = Int lo ->
  numberfy float float_of_str int_of_str max_val = Int hi ->
  hi < lo ->
  between_values float float_of_str int_of_str float_lt
    value min_val max_val = Int lo.
Proof.
  intros Hx Hlo Hhi Hlt. unfold between_values.
  rewrite Hx, Hlo, Hhi. unfold py_min, py_max, lt.
  destruct (Z.ltb_spec x hi); cbn [lt].
  - destruct (Z.ltb_spec x lo); [reflexivity | lia].
  - destruct (Z.ltb_spec hi lo); [reflexivity | lia].
Qed.

End Clamping.


(** 150 clamped to 0..100, the lower bound given as [None]. *)
Lemma between_values_clamps_witness :
  exists r,
    Numeric.between_values unit (fun _ => None) (fun _ => None)
      (fun _ _ => false) (Numeric.NInt 150) Numeric.NNone (Numeric.NInt 100) =
      Numeric.Int r /\ 0 <= r <= 100.
Proof.
  destruct (between_values_clamps unit (fun _ => None) (fun _ => None)
              (fun _ _ => false) (Numeric.NInt 150) Numeric.NNone
              (Numeric.NInt 100) 150 0 100)
    as (r & Hr & Hb & _); try reflexivity; try lia.
  exists r. split; [exact Hr | exact Hb].
Defined.

(** Bounds 100..0: the answer is 100 for the value 50. *)
Lemma between_values_crossed_bounds_witness :
  Numeric.between_values unit (fun _ => None) (fun _ => None)
    (fun _ _ => false) (Numeric.NInt 50) (Numeric.NInt 100) Numeric.NNone =
    Numeric.Int 100.
Proof.
  apply (between_values_crossed_bounds unit (fun _ => None) (fun _ => None)
           (fun _ _ => false) (Numeric.NInt 50) (Numeric.NInt 100)
           Numeric.NNone 50 100 0); try reflexivity; lia.
Defined.

(** * Device specifications *)

Section Specifications.

Import VeSyncConfig.

Variable lower : string -> string.

Lemma line_body_skips (lines : list prod_line) :
  Forall (fun line => typeInfoList line = None) lines ->
  forall specs, fold_left (line_body lower) lines specs = specs.
Proof.
  induction 1 as [| line rest Hline _ IH]; intros specs; [reflexivity |].
  cbn [fold_left]. unfold line_body at 2. rewrite Hline. apply IH.
Qed.

(** X16.  [process_specs] on a list in which no product line has a list
    under ['typeInfoList'], the empty list included, never binds [specs]
    and raises [UnboundLocalError] at its [return]. *)
Theorem process_specs_unbound (lines : list prod_line) :
  Forall (fun line => typeInfoList line = None) lines ->
  process_specs lower lines = Raise (UnboundLocalError "specs").
Proof.
  intros H. unfold process_specs. now rewrite line_body_skips.
Qed.

(** X17.  [specs] is rebound to an empty dictionary for each product line
    that has a type list: the answer of [process_specs] is that of the last
    such line alone, and the lines before it leave no trace. *)
Theorem process_specs_last_line_only (pre post : list prod_line)
    (line : prod_line) (type_list : list prod_type) :
  typeInfoList line = Some type_list ->
  Forall (fun l => typeInfoList l = None) post ->
  process_specs lower (pre ++ line :: post) = process_specs lower [line] /\
  process_specs lower (pre ++ line :: post) =
    Ok (fold_left (type_body lower) type_list []).
Proof.
  intros Hline Hpost. unfold process_specs.
  rewrite fold_left_app. cbn [fold_left].
  rewrite (line_body_skips post Hpost).
  unfold line_body. rewrite Hline. split; reflexivity.
Qed.

End Specifications.


(** The empty list of product lines. *)
Lemma process_specs_unbound_witness :
  VeSyncConfig.process_specs (fun s => s) [] =
    VeSyncConfig.Raise (VeSyncConfig.UnboundLocalError "specs").
Proof.
  apply (process_specs_unbound (fun s => s) []). constructor.
Defined.

(** A line of humidifiers before a line with an empty type list: nothing
    of the first is left. *)
Lemma process_specs_last_line_only_witness :
  VeSyncConfig.process_specs (fun s => s)
    [ {| VeSyncConfig.typeInfoList :=
           Some [ {| VeSyncConfig.typeName := "Humidifier";
                     VeSyncConfig.modelInfoList :=
                       [ {| VeSyncConfig.model := "LUH-A602S-WUS";
                            VeSyncConfig.deviceType := "wifi-air";
                            VeSyncConfig.connectionType := "wifi+ble";
                            VeSyncConfig.modelName := "LV600S";
                            VeSyncConfig.modelDisplay := "LV600S";
                            VeSyncConfig.setupEntry := "air-humidifier";
                            VeSyncConfig.configModuleInfoList :=
                              Some [ {| VeSyncConfig.configModule :=
                                          "WFON_AHM_LUH-A602S-WUS_US" |} ] |} ] |} ] |};
      {| VeSyncConfig.typeInfoList := Some [] |} ] =
    VeSyncConfig.Ok [].
Proof.
  match goal with
  | |- VeSyncConfig.process_specs _ [?l1; ?l2] = _ =>
      destruct (process_specs_last_line_only (fun s => s) [l1] [] l2 [])
        as [_ H]
  end.
  - reflexivity.
  - constructor.
  - exact H.
Defined.

(** * Linkage properties *)

Section LinkageProperties.

Import Linkage.

Variable json : Type.

Lemma dev_dict_get_setitem (k q : string) (v : props_t json)
    (d : dev_dict_t json) :
  dev_dict_get json q (dev_dict_setitem json k v d) =
    if String.eqb q k then Some v else dev_dict_get json q d.
Proof.
  induction d as [| [k0 w] rest IH]; cbn.
  - reflexivity.
  - destruct (String.eqb_spec k k0) as [-> | Hk]; cbn.
    + destruct (String.eqb q k0); reflexivity.
    + destruct (String.eqb_spec q k0) as [-> | Hq].
      * destruct (String.eqb_spec k0 k) as [-> | _]; [congruence | reflexivity].
      * exact IH.
Qed.

Lemma prop_body_only (cm : string) (d : dev json) (dev_dict : dev_dict_t json)
    (p : prop json) :
  configModule d = Some cm ->
  only_module json cm dev_dict ->
  exists dev_dict',
    prop_body json d dev_dict p = Ok dev_dict' /\ only_module json cm dev_dict'.
Proof.
  intros Hcm Honly. unfold prop_body. rewrite Hcm.
  eexists. split; [reflexivity |].
  intros q Hq. rewrite dev_dict_get_setitem.
  destruct (String.eqb_spec q cm); [congruence |].
  destruct (dev_dict_get json cm dev_dict); [now apply Honly |].
  rewrite dev_dict_get_setitem.
  destruct (String.eqb_spec q cm); [congruence | now apply Honly].
Qed.

Lemma props_loop_only (cm : string) (d : dev json) (props : list (prop json)) :
  configModule d = Some cm ->
  forall dev_dict,
    only_module json cm dev_dict ->
    exists dev_dict',
      for_each (prop_body json d) props dev_dict = Ok dev_dict' /\
      only_module json cm dev_dict'.
Proof.
  intros Hcm. induction props as [| p rest IH]; intros dev_dict Honly.
  - exists dev_dict. split; [reflexivity | exact Honly].
  - cbn [for_each].
    destruct (prop_body_only cm d dev_dict p Hcm Honly) as (d1 & Hrun & H1).
    rewrite Hrun. now apply IH.
Qed.

Lemma devs_loop_only (cm : string) (devs : list (dev json)) :
  forall dev_dict,
    only_module json cm dev_dict ->
    exists dev_dict',
      for_each (dev_body json (Some cm)) devs dev_dict = Ok dev_dict' /\
      only_module json cm dev_dict'.
Proof.
  induction devs as [| d rest IH]; intros dev_dict Honly.
  - exists dev_dict. split; [reflexivity | exact Honly].
  - cbn [for_each]. unfold dev_body at 1. unfold other_module.
    destruct (configModule d) as [cm' |] eqn:Ecm; cbn [negb].
    + destruct (String.eqb_spec cm' cm) as [-> | Hne]; cbn [negb].
      * destruct (props_loop_only cm d (actionPropertyList d) Ecm
                    dev_dict Honly) as (d1 & Hrun & H1).
        rewrite Hrun. now apply IH.
      * now apply IH.
    + now apply IH.
Qed.


Lemma props_loop_ok (cm : string) (d : dev json) (props : list (prop json)) :
  configModule d = Some cm ->
  forall dev_dict,
    exists dev_dict', for_each (prop_body json d) props dev_dict = Ok dev_dict'.
Proof.
  intros Hcm. induction props as [| p rest IH]; intros dev_dict.
  - now exists dev_dict.
  - cbn [for_each]. unfold prop_body at 1. rewrite Hcm. apply IH.
Qed.

Lemma devs_loop_unfiltered (devs : list (dev json)) :
  forall dev_dict,
    (Exists (unfiled json) devs /\
     for_each (dev_body json None) devs dev_dict =
       Raise (KeyError "configModule")) \/
    (~ Exists (unfiled json) devs /\
     exists dev_dict',
       for_each (dev_body json None) devs dev_dict = Ok dev_dict').
Proof.
  induction devs as [| d rest IH]; intros dev_dict.
  - right. split; [intros H; inversion H | now exists dev_dict].
  - cbn [for_each]. unfold dev_body at 1 3.
    destruct (configModule d) as [cm |] eqn:Ecm.
    + destruct (props_loop_ok cm d (actionPropertyList d) Ecm dev_dict)
        as (d1 & Hrun).
      rewrite Hrun.
      destruct (IH d1) as [[Hex Hr] | [Hnex Hr]].
      * left. split; [now apply Exists_cons_tl | exact Hr].
      * right. split; [| exact Hr].
        intros H. inversion H as [? ? [Hc _] | ? ? Hx]; subst;
          [congruence | now apply Hnex].
    + destruct (actionPropertyList d) as [| p props] eqn:Ep.
      * cbn [for_each].
        destruct (IH dev_dict) as [[Hex Hr] | [Hnex Hr]].
        -- left. split; [now apply Exists_cons_tl | exact Hr].
        -- right. split; [| exact Hr].
           intros H. inversion H as [? ? [_ Hp] | ? ? Hx]; subst;
             [now apply Hp | now apply Hnex].
      * left. split.
        -- apply Exists_cons_hd. split; [exact Ecm | rewrite Ep; discriminate].
        -- cbn [for_each]. unfold prop_body. now rewrite Ecm.
Qed.


End LinkageProperties.
